(** * Checkout and vend orchestration of the Wendor kiosk

    A shallow embedding of
    - [backend/src/controllers/cart.controller.ts] (cart, prepare, confirm),
    - [backend/src/utils/jsonData.ts] (product loading and its cache),
    - [backend/src/websocket/vmc.ts] (the backend's link to the controller),
    - [vmc/server.js] (the vend controller mock),
    - the kiosk UI's [pages/Products.tsx] and [ProductCard.tsx]
      (availability, the card's guard, the drawer's totals, trays and item
      numbers),
    - the kiosk UI's [services/websocket.ts] (its reconnecting socket),
    and the properties of the checkout protocol and of the vend state
    machine that are stated about them.

    JavaScript numbers are modelled as exact rationals together with the
    three non-finite values the code tests for; IEEE rounding is outside
    the model.  Handlers run to completion: the interleaving of two
    requests at an [await] is outside the model too. *)

From Stdlib Require Import QArith Qround Lqa ZArith Lia String List.
From Stdlib Require Import DecimalString DecimalZ.
From stdpp Require Import base list strings.

Local Open Scope string_scope.
Local Open Scope list_scope.

(** ** JavaScript values *)

Module JS.

(** A [number]: a finite value, or one of NaN, Infinity, -Infinity. *)
Inductive jsnum :=
| Fin (q : Q)
| NaN
| PosInf
| NegInf.

(** A JSON value as [JSON.parse] hands it to a handler. Objects other than
    arrays are never inspected by the code modelled here. *)
#[warnings="-register-all"]
Inductive jsval :=
| JUndefined
| JNull
| JBool (b : bool)
| JNum (n : jsnum)
| JStr (s : string)
| JArr (l : list jsval)
| JObj.

(** [!!v] *)
Definition truthy (v : jsval) : bool :=
  match v with
  | JUndefined | JNull => false
  | JBool b => b
  | JNum (Fin q) => negb (Qeq_bool q 0)
  | JNum NaN => false
  | JNum _ => true
  | JStr s => negb (String.eqb s "")
  | JArr _ | JObj => true
  end.

(** [Number.isFinite(v)]: no coercion, only finite numbers pass. *)
Definition Number_isFinite (v : jsval) : bool :=
  match v with
  | JNum (Fin _) => true
  | _ => false
  end.

Definition isFinite (n : jsnum) : bool :=
  match n with Fin _ => true | _ => false end.

(** [a === b] on numbers. *)
Definition strict_eq (a b : jsnum) : bool :=
  match a, b with
  | Fin x, Fin y => Qeq_bool x y
  | PosInf, PosInf | NegInf, NegInf => true
  | _, _ => false
  end.

(** [a < b] on numbers (false as soon as one side is NaN). *)
Definition lt (a b : jsnum) : bool :=
  match a, b with
  | Fin x, Fin y => negb (Qle_bool y x)
  | NaN, _ | _, NaN => false
  | NegInf, NegInf | PosInf, _ => false
  | NegInf, _ | Fin _, PosInf => true
  | Fin _, NegInf => false
  end.

(** [a - b] with a finite right operand. *)
Definition sub (a : jsnum) (b : Q) : jsnum :=
  match a with
  | Fin x => Fin (x - b)
  | other => other
  end.

(** [Math.max(0, a)] *)
Definition Math_max0 (a : jsnum) : jsnum :=
  match a with
  | Fin x => if Qle_bool 0 x then Fin x else Fin 0
  | NaN => NaN
  | PosInf => PosInf
  | NegInf => Fin 0
  end.

(** [Array.isArray(v) && v.length > 0], with the array it found. *)
Definition nonempty_array (v : jsval) : option (list jsval) :=
  match v with
  | JArr (x :: l) => Some (x :: l)
  | _ => None
  end.

(** A [Map<number, V>] whose keys are finite numbers: entries in insertion
    order, keys compared by value. *)
Fixpoint Map_get {V : Type} (m : list (Q * V)) (k : Q) : option V :=
  match m with
  | [] => None
  | (k', v) :: m' => if Qeq_bool k' k then Some v else Map_get m' k
  end.

(** [m.set(k, v)]: an existing key keeps its place, a new one goes last. *)
Fixpoint Map_set {V : Type} (m : list (Q * V)) (k : Q) (v : V) : list (Q * V) :=
  match m with
  | [] => [(k, v)]
  | (k', v') :: m' =>
      if Qeq_bool k' k then (k', v) :: m' else (k', v') :: Map_set m' k v
  end.

(** [`${n}`] for an integer-valued number. *)
Definition decimal (z : Z) : string := NilZero.string_of_int (Z.to_int z).

End JS.

Import JS.

(** ** The data file and the backend's state *)

(** One record of [data.json], each field as the code reads it:
    [Number(p.product_id)], [Number(p.shelf_life_count ?? 0)], the price as
    parsed by [toJsonProduct], and [is_active] false exactly when the raw
    field is the boolean [false] (the UI's test). *)
Record RawProduct := {
  product_id : jsnum;
  product_name : string;
  product_price : jsnum;
  shelf_life_count : jsnum;
  is_active : bool
}.

Definition set_shelf_life_count (n : jsnum) (p : RawProduct) : RawProduct :=
  {| product_id := product_id p; product_name := product_name p;
     product_price := product_price p; shelf_life_count := n;
     is_active := is_active p |}.

(** [JsonProduct] of jsonData.ts, without the fields checkout never reads. *)
Record JsonProduct := {
  id : jsnum;
  name : string;
  price : Q
}.

(** Cart lines of a prepared order. *)
Record OrderLine := {
  line_productId : Q;
  line_quantity : Q;
  line_name : string;
  line_price : Q;
  line_amount : Q
}.

Inductive Response :=
| R400_invalid_request
| R404_not_found (productId : Q)
| R400_invalid_stock (productId : Q)
| R400_insufficient_stock (productId : Q) (available : Q) (inCart requested : Q)
| R200_cart (items : list (Q * Q))
| R200_ok
| R200_order (orderId : string) (items : list OrderLine) (total : Q)
| R400_confirm_not_found (productId : Q)
| R400_confirm_insufficient (productId : Q) (available : jsnum) (requested : Q)
| R200_confirmed (checkedOut : list (Q * Q)) (sent : bool) (items : nat)
| R500.

(** State of the backend's WebSocket client to the controller. *)
Inductive Link := LinkNone | LinkConnecting | LinkOpen.

(** What a handler does to the outside, in program order. *)
Inductive Effect :=
| EReadFile
| EWriteFile
| EInvalidateCache
| ECartSet (productId quantity : Q)
| ECartClear
| ESendToVMC (items : list Q)
| ESocketSend (items : list Q)
| ENewSocket
| ESetTimeout (ms : Z) (items : list Q).

Record World := {
  file : option (list RawProduct);
  writable : bool;
  cart : list (Q * Q);
  cachedProducts : option (list JsonProduct);
  lastLoaded : Z;
  vmcClient : Link;
  log : list Effect
}.

(** ** A state monad over [World] *)

Definition M (A : Type) : Type := World -> A * World.

Definition ret {A} (a : A) : M A := fun w => (a, w).
Definition bind {A B} (c : M A) (k : A -> M B) : M B :=
  fun w => let (a, w') := c w in k a w'.

Notation "'let*' x ':=' c 'in' k" := (bind c (fun x => k))
  (at level 10, x name, c at level 100, k at level 200).
Notation "c >> k" := (bind c (fun _ => k))
  (at level 100, k at level 200, right associativity).

Definition emit (e : Effect) : M unit := fun w =>
  (tt, {| file := file w; writable := writable w; cart := cart w;
          cachedProducts := cachedProducts w; lastLoaded := lastLoaded w;
          vmcClient := vmcClient w; log := log w ++ [e] |}).

Definition set_file (d : list RawProduct) : M unit := fun w =>
  (tt, {| file := Some d; writable := writable w; cart := cart w;
          cachedProducts := cachedProducts w; lastLoaded := lastLoaded w;
          vmcClient := vmcClient w; log := log w |}).

Definition set_cart (c : list (Q * Q)) : M unit := fun w =>
  (tt, {| file := file w; writable := writable w; cart := c;
          cachedProducts := cachedProducts w; lastLoaded := lastLoaded w;
          vmcClient := vmcClient w; log := log w |}).

Definition set_cache (c : option (list JsonProduct)) (t : Z) : M unit := fun w =>
  (tt, {| file := file w; writable := writable w; cart := cart w;
          cachedProducts := c; lastLoaded := t;
          vmcClient := vmcClient w; log := log w |}).

Definition set_vmcClient (l : Link) : M unit := fun w =>
  (tt, {| file := file w; writable := writable w; cart := cart w;
          cachedProducts := cachedProducts w; lastLoaded := lastLoaded w;
          vmcClient := l; log := log w |}).

(** [fs.readFile] followed by [JSON.parse]: [None] stands for every way in
    which this throws (no file, no JSON, not an array of objects). *)
Definition readFile : M (option (list RawProduct)) :=
  emit EReadFile >> (fun w => (file w, w)).

(** [fs.writeFile]: [false] stands for a throw. *)
Definition writeFile (d : list RawProduct) : M bool := fun w =>
  if writable w then (emit EWriteFile >> set_file d >> ret true) w
  else (false, w).

Definition cart_items : M (list (Q * Q)) := fun w => (cart w, w).

Definition cart_set (productId quantity : Q) : M unit :=
  emit (ECartSet productId quantity) >>
  let* c := cart_items in set_cart (Map_set c productId quantity).

Definition cart_clear : M unit :=
  emit ECartClear >> set_cart [].

(** ** jsonData.ts *)

Definition CACHE_TTL_MS : Z := 60 * 1000.

Definition toJsonProduct (raw : RawProduct) : JsonProduct :=
  {| id := product_id raw;
     name := product_name raw;
     price := match product_price raw with Fin q => q | _ => 0%Q end |}.

(** [loadProducts()], [now] being its reading of [Date.now()]; [None] when
    [readJsonFile] throws. *)
Definition loadProducts (now : Z) : M (option (list JsonProduct)) := fun w =>
  let reload :=
    let* rawProducts := readFile in
    match rawProducts with
    | None => ret None
    | Some rawProducts =>
        let products := map toJsonProduct rawProducts in
        set_cache (Some products) now >> ret (Some products)
    end in
  match cachedProducts w with
  | Some products =>
      if (now - lastLoaded w <? CACHE_TTL_MS)%Z then (Some products, w)
      else reload w
  | None => reload w
  end.

Definition invalidateJsonCache : M unit :=
  emit EInvalidateCache >> set_cache None 0.

(** ** websocket/vmc.ts *)

Definition connectToVMC : M unit := fun w =>
  match vmcClient w with
  | LinkOpen => (tt, w)
  | _ => (emit ENewSocket >> set_vmcClient LinkConnecting) w
  end.

Definition sendToVMC (items : list Q) : M bool :=
  emit (ESendToVMC items) >>
  fun w =>
    match vmcClient w with
    | LinkOpen => (emit (ESocketSend items) >> ret true) w
    | _ => (connectToVMC >> ret false) w
    end.

(** [setTimeout(() => sendToVMC(vendMessage), ms)]: the registration, and
    the callback that runs when the timer fires. *)
Definition setTimeout_resend (ms : Z) (items : list Q) : M unit :=
  emit (ESetTimeout ms items).

Definition resend_callback (items : list Q) : M unit :=
  sendToVMC items >> ret tt.

(** ** cart.controller.ts *)

(** [quantity <= 0], evaluated only once [quantity] is known to be a finite
    number. *)
Definition le_zero (v : jsval) : bool :=
  match v with
  | JNum (Fin q) => Qle_bool q 0
  | _ => false
  end.

(** The guard of [addToCart]. *)
Definition invalid_request (productId quantity : jsval) : bool :=
  negb (truthy productId) || negb (Number_isFinite productId) ||
  negb (truthy quantity) || negb (Number_isFinite quantity) ||
  le_zero quantity.

(** [data.findIndex(pred)], [None] for -1. *)
Fixpoint findIndex {A : Type} (pred : A -> bool) (data : list A) : option nat :=
  match data with
  | [] => None
  | p :: rest => if pred p then Some 0%nat else S <$> findIndex pred rest
  end.

(** [a > b] on finite numbers. *)
Definition Qgt_bool (a b : Q) : bool := negb (Qle_bool a b).

Definition getCart : M Response :=
  let* items := cart_items in ret (R200_cart items).

Definition addToCart (productId quantity : jsval) : M Response :=
  if invalid_request productId quantity then ret R400_invalid_request
  else
    match productId, quantity with
    | JNum (Fin pid), JNum (Fin qty) =>
        let* raw := readFile in
        match raw with
        | None => ret R500
        | Some data =>
            match findIndex (fun p => strict_eq (product_id p) (Fin pid)) data with
            | None => ret (R404_not_found pid)
            | Some idx =>
                match data !! idx with
                | None => ret R500
                | Some p =>
                    match shelf_life_count p with
                    | Fin available =>
                        let* items := cart_items in
                        let inCart := default 0%Q (Map_get items pid) in
                        if Qgt_bool (inCart + qty) available
                        then ret (R400_insufficient_stock pid available inCart qty)
                        else
                          cart_set pid (inCart + qty)%Q >>
                          let* items' := cart_items in ret (R200_cart items')
                    | _ => ret (R400_invalid_stock pid)
                    end
                end
            end
        end
    | _, _ => ret R400_invalid_request
    end.

Definition clearCart : M Response :=
  cart_clear >> ret R200_ok.

Definition order_line (products : list JsonProduct) (entry : Q * Q) : OrderLine :=
  let (productId, quantity) := entry in
  let p := List.find (fun pp => strict_eq (id pp) (Fin productId)) products in
  {| line_productId := productId;
     line_quantity := quantity;
     line_name := from_option name "" p;
     line_price := from_option price 0%Q p;
     line_amount := (from_option price 0 p * quantity)%Q |}.

(** [prepareCheckout], with the readings of [Date.now()] made by
    [loadProducts] and by the [orderId] template. *)
Definition prepareCheckout (now_load now_id : Z) : M Response :=
  let* products := loadProducts now_load in
  match products with
  | None => ret R500
  | Some products =>
      let* entries := cart_items in
      let items := map (order_line products) entries in
      let total := fold_left (fun s it => (s + line_amount it)%Q) items 0%Q in
      let orderId := ("order_" ++ decimal now_id)%string in
      ret (R200_order orderId items total)
  end.

(** [idToIndex]: a later record with the same id replaces an earlier one. *)
Fixpoint index_from (idx : nat) (data : list RawProduct)
    (idToIndex : list (Q * nat)) : list (Q * nat) :=
  match data with
  | [] => idToIndex
  | p :: rest =>
      index_from (S idx) rest
        match product_id p with
        | Fin idNum => Map_set idToIndex idNum idx
        | _ => idToIndex
        end
  end.

Definition build_index (data : list RawProduct) : list (Q * nat) :=
  index_from 0 data [].

(** The validation loop: the response of its first early return. *)
Fixpoint validate (data : list RawProduct) (idToIndex : list (Q * nat))
    (entries : list (Q * Q)) : option Response :=
  match entries with
  | [] => None
  | (productId, qty) :: rest =>
      match Map_get idToIndex productId with
      | None => Some (R400_confirm_not_found productId)
      | Some idx =>
          match data !! idx with
          | None => Some R500
          | Some item =>
              let current := shelf_life_count item in
              if negb (isFinite current) || lt current (Fin qty)
              then Some (R400_confirm_insufficient productId current qty)
              else validate data idToIndex rest
          end
      end
  end.

(** The deduction loop, on the parsed array; [None] when it throws. *)
Fixpoint deduct (idToIndex : list (Q * nat)) (entries : list (Q * Q))
    (data : list RawProduct) : option (list RawProduct) :=
  match entries with
  | [] => Some data
  | (productId, qty) :: rest =>
      match Map_get idToIndex productId with
      | None => None
      | Some idx =>
          match data !! idx with
          | None => None
          | Some item =>
              let current := shelf_life_count item in
              deduct idToIndex rest
                (alter (set_shelf_life_count (Math_max0 (sub current qty))) idx data)
          end
      end
  end.

(** [for (let i = 0; i < qty; i++) vendItems.push(productId)], started at
    [i] and cut after [fuel] rounds. *)
Fixpoint push_units (fuel : nat) (i : Z) (qty productId : Q)
    (vendItems : list Q) : list Q :=
  match fuel with
  | O => vendItems
  | S fuel' =>
      if Qgt_bool qty (inject_Z i)
      then push_units fuel' (i + 1)%Z qty productId (vendItems ++ [productId])
      else vendItems
  end.

(** Rounds the loop above makes from [i = 0]. *)
Definition units (qty : Q) : nat := Z.to_nat (Qceiling qty).

Definition expand (entries : list (Q * Q)) : list Q :=
  fold_left (fun vendItems '(productId, qty) =>
               push_units (units qty) 0 qty productId vendItems)
            entries [].

Definition confirmCheckout : M Response :=
  let* raw := readFile in
  match raw with
  | None => ret R500
  | Some data =>
      let idToIndex := build_index data in
      let* entries := cart_items in
      match validate data idToIndex entries with
      | Some early => ret early
      | None =>
          match deduct idToIndex entries data with
          | None => ret R500
          | Some data' =>
              let* written := writeFile data' in
              if written then
                invalidateJsonCache >>
                let checkedOut := entries in
                let vendItems := expand entries in
                cart_clear >>
                let* sent := sendToVMC vendItems in
                (if sent then ret tt
                 else connectToVMC >> setTimeout_resend 1000 vendItems) >>
                ret (R200_confirmed checkedOut sent (length vendItems))
              else ret R500
          end
      end
  end.

(** ** vmc/server.js: the vend controller *)

Module VmcServer.

Inductive Status := idle | vending.

(** Node timers: each [setInterval]/[setTimeout] gets a fresh handle, and
    stays in the table until it is cleared or, for a timeout, has fired. *)
Inductive TimerKind := Interval | Timeout.

Record VendingState := {
  status : Status;
  currentItems : list jsval;
  startTime : option Z;
  timeout : option nat;
  statusInterval : option nat
}.

Record Server := {
  vendingState : VendingState;
  timers : list (nat * TimerKind);
  next_handle : nat
}.

Definition initial : Server :=
  {| vendingState := {| status := idle; currentItems := []; startTime := None;
                        timeout := None; statusInterval := None |};
     timers := []; next_handle := 0 |}.

(** Messages the server puts on a socket. *)
Inductive Message :=
| error_invalid_json
| vend_response_invalid
| vend_response_busy (currentItems : list jsval)
| vend_response_started (items : list jsval) (estimatedTime : Z)
| status_on_connect (s : Status) (items : list jsval)
| status_started (items : list jsval) (message : option string)
| status_progress (items : list jsval) (elapsedTime : Z)
| status_reply (s : Status) (progress : option (list jsval * Z))
| vend_complete (vendedItems : list jsval)
| health.

Inductive HttpResponse :=
| H400_invalid_items
| H409_busy (currentItems : list jsval)
| H200_started (items : list jsval) (estimatedTime : Z)
| H200_status (s : Status) (progress : option (list jsval * Z)).

Inductive Output :=
| Send (m : Message)
| Broadcast (m : Message)
| Respond (r : HttpResponse).

(** A text frame from a client: no JSON, or an object with its [type] and
    [items] properties. *)
Inductive Frame :=
| InvalidJSON
| Data (type items : jsval).

Definition is_type (t : string) (v : jsval) : bool :=
  match v with JStr s => String.eqb s t | _ => false end.

(** [vendingState.startTime] used as a condition. *)
Definition startTime_truthy (t : option Z) : bool :=
  match t with Some n => negb (n =? 0)%Z | None => false end.

(** The three assignments that start a cycle, then the two timers. *)
Definition start_cycle (now : Z) (items : list jsval) (s : Server) : Server :=
  let h := next_handle s in
  {| vendingState := {| status := vending; currentItems := items;
                        startTime := Some now;
                        timeout := Some (S h); statusInterval := Some h |};
     timers := timers s ++ [(h, Interval); (S h, Timeout)];
     next_handle := S (S h) |}.

(** [wss.on('connection')]: the greeting sent to the new client. *)
Definition on_connection (s : Server) : list Output * Server :=
  ([Send (status_on_connect (status (vendingState s))
            (currentItems (vendingState s)))], s).

(** [app.get('/status')] *)
Definition get_status (now : Z) (s : Server) : list Output * Server :=
  let v := vendingState s in
  match status v with
  | vending =>
      if startTime_truthy (startTime v) then
        ([Respond (H200_status vending
                     (Some (currentItems v, (now - default 0 (startTime v))%Z)))], s)
      else ([Respond (H200_status vending None)], s)
  | idle => ([Respond (H200_status idle None)], s)
  end.

(** [ws.on('message')] *)
Definition on_message (now : Z) (f : Frame) (s : Server) : list Output * Server :=
  match f with
  | InvalidJSON => ([Send error_invalid_json], s)
  | Data type items =>
      if is_type "vend" type then
        match nonempty_array items with
        | None => ([Send vend_response_invalid], s)
        | Some items =>
            match status (vendingState s) with
            | vending =>
                ([Send (vend_response_busy (currentItems (vendingState s)))], s)
            | idle =>
                ([Broadcast (status_started items (Some "Vending started"));
                  Send (vend_response_started items 5000)],
                 start_cycle now items s)
            end
        end
      else if is_type "status" type then
        match status (vendingState s) with
        | vending =>
            let elapsed := (now - default 0 (startTime (vendingState s)))%Z in
            ([Send (status_reply vending
                      (Some (currentItems (vendingState s), elapsed)))], s)
        | idle => ([Send (status_reply idle None)], s)
        end
      else if is_type "health" type then ([Send health], s)
      else ([], s)
  end.

(** [app.post('/vend')] with [req.body.items] *)
Definition post_vend (now : Z) (items : jsval) (s : Server) : list Output * Server :=
  match nonempty_array items with
  | None => ([Respond H400_invalid_items], s)
  | Some items =>
      match status (vendingState s) with
      | vending => ([Respond (H409_busy (currentItems (vendingState s)))], s)
      | idle =>
          ([Broadcast (status_started items None);
            Respond (H200_started items 5000)],
           start_cycle now items s)
      end
  end.

Definition clear_timer (h : nat) (ts : list (nat * TimerKind)) :=
  List.filter (fun t => negb (Nat.eqb (fst t) h)) ts.

(** The [setInterval] callback. *)
Definition tick (now : Z) (s : Server) : list Output * Server :=
  let v := vendingState s in
  match status v with
  | vending =>
      if startTime_truthy (startTime v) then
        ([Broadcast (status_progress (currentItems v)
                       (now - default 0 (startTime v))%Z)], s)
      else
        match statusInterval v with
        | Some h =>
            ([], {| vendingState := {| status := status v;
                                       currentItems := currentItems v;
                                       startTime := startTime v;
                                       timeout := timeout v;
                                       statusInterval := None |};
                    timers := clear_timer h (timers s);
                    next_handle := next_handle s |})
        | None => ([], s)
        end
  | idle =>
      match statusInterval v with
      | Some h =>
          ([], {| vendingState := {| status := status v;
                                     currentItems := currentItems v;
                                     startTime := startTime v;
                                     timeout := timeout v;
                                     statusInterval := None |};
                  timers := clear_timer h (timers s);
                  next_handle := next_handle s |})
      | None => ([], s)
      end
  end.

(** The [setTimeout] callback. *)
Definition complete (s : Server) : list Output * Server :=
  let v := vendingState s in
  let ts := match statusInterval v with
            | Some h => clear_timer h (timers s)
            | None => timers s
            end in
  ([Broadcast (vend_complete (currentItems v))],
   {| vendingState := {| status := idle; currentItems := []; startTime := None;
                         timeout := None; statusInterval := None |};
      timers := ts; next_handle := next_handle s |}).

(** What can happen to the server. A timer fires only while it is in the
    table; a timeout leaves the table as it fires. *)
Inductive Event :=
| Connection
| Message_in (now : Z) (f : Frame)
| Get_status (now : Z)
| Post_vend (now : Z) (items : jsval)
| Fire (now : Z) (h : nat).

Definition step (e : Event) (s : Server) : list Output * Server :=
  match e with
  | Connection => on_connection s
  | Message_in now f => on_message now f s
  | Get_status now => get_status now s
  | Post_vend now items => post_vend now items s
  | Fire now h =>
      match List.find (fun t => Nat.eqb (fst t) h) (timers s) with
      | Some (_, Interval) => tick now s
      | Some (_, Timeout) =>
          complete {| vendingState := vendingState s;
                      timers := clear_timer h (timers s);
                      next_handle := next_handle s |}
      | None => ([], s)
      end
  end.

Definition run (es : list Event) (s : Server) : Server :=
  fold_left (fun s e => snd (step e s)) es s.

Definition is_timeout (t : nat * TimerKind) : bool :=
  match snd t with Timeout => true | Interval => false end.

(** Cycles in progress: the completion timers that are pending. *)
Definition active_cycles (s : Server) : nat :=
  length (List.filter is_timeout (timers s)).

(** What the proofs carry along the runs of the server: a completion
    timer is pending exactly while vending, it is the one recorded in the
    state, and the handle of the status interval is not the handle of a
    completion timer. *)
Definition invariant (s : Server) : Prop :=
  match status (vendingState s) with
  | idle => List.filter is_timeout (timers s) = []
  | vending =>
      exists h, timeout (vendingState s) = Some h /\
                List.filter is_timeout (timers s) = [(h, Timeout)]
  end /\
  forall hI, statusInterval (vendingState s) = Some hI ->
    forall h, In (h, Timeout) (timers s) -> h <> hI.

Definition item (n : Z) : jsval := JNum (Fin (inject_Z n)).

End VmcServer.

(** ** The kiosk UI's guard on adding (Products.tsx, ProductCard.tsx) *)

Module KioskUI.

(** [a >= b] on numbers. *)
Definition ge (a b : jsnum) : bool :=
  match a, b with
  | Fin x, Fin y => Qle_bool y x
  | NaN, _ | _, NaN => false
  | PosInf, _ | _, NegInf => true
  | _, _ => false
  end.

(** [isAvailable] of Products.tsx, from [meta_data.is_active !== false] and
    the quantity found in the metadata ([None] for [null]). *)
Definition isAvailable (isActive : bool) (quantityNum : option jsnum) : bool :=
  let hasQuantity :=
    match quantityNum with
    | Some NaN | None => false
    | Some n => ge n (Fin 0)
    end in
  isActive &&
  (negb hasQuantity ||
   match quantityNum with Some n => lt (Fin 0) n | None => false end).

(** [handleAddToCart] of ProductCard.tsx: the [addToCart(product.id, 1)]
    request it sends, if any. The card's [isActive] property is given the
    product's [isAvailable] by Products.tsx. *)
Definition handleAddToCart (adding isVending isActive : bool)
    (quantity : option jsnum) (cartQty productId : Q) : option (jsval * jsval) :=
  if adding || isVending || negb isActive then None
  else
    match quantity with
    | Some n =>
        if ge (Fin cartQty) n then None
        else Some (JNum (Fin productId), JNum (Fin 1))
    | None => Some (JNum (Fin productId), JNum (Fin 1))
    end.

End KioskUI.

(** ** Derived notions used in the statements *)

(** The stock [addToCart] reads for a product: the first record whose id
    is the requested one. *)
Definition live_stock (data : list RawProduct) (productId : Q) : option jsnum :=
  idx ← findIndex (fun p => strict_eq (product_id p) (Fin productId)) data;
  p ← data !! idx;
  Some (shelf_life_count p).

(** The record [confirmCheckout] reads and writes for a product. *)
Definition confirm_record (data : list RawProduct) (productId : Q)
    : option (nat * RawProduct) :=
  idx ← Map_get (build_index data) productId;
  item ← data !! idx;
  Some (idx, item).

(** A [Map] holds a key once. *)
Fixpoint Map_wf {V : Type} (m : list (Q * V)) : Prop :=
  match m with
  | [] => True
  | (k, _) :: m' => Map_get m' k = None /\ Map_wf m'
  end.

Definition link_open (l : Link) : bool :=
  match l with LinkOpen => true | _ => false end.

(** [w] after the effects [es], its other fields untouched. *)
Definition logged (es : list Effect) (w : World) : World :=
  {| file := file w; writable := writable w; cart := cart w;
     cachedProducts := cachedProducts w; lastLoaded := lastLoaded w;
     vmcClient := vmcClient w; log := log w ++ es |}.

(** The effects of a [confirmCheckout] that gets to its last line. *)
Definition confirm_effects (open : bool) (items : list Q) : list Effect :=
  [EReadFile; EWriteFile; EInvalidateCache; ECartClear; ESendToVMC items] ++
  if open then [ESocketSend items]
  else [ENewSocket; ENewSocket; ESetTimeout 1000 items].

(** The effects a handler added to the log between [w] and [w']. *)
Definition effects_of (w w' : World) : list Effect :=
  drop (length (log w)) (log w').

Definition is_write (e : Effect) : bool :=
  match e with EWriteFile => true | _ => false end.

Definition is_clear (e : Effect) : bool :=
  match e with ECartClear => true | _ => false end.

(** An attempt to submit a vend list: a call of [sendToVMC]. *)
Definition is_submission (e : Effect) : bool :=
  match e with ESendToVMC _ => true | _ => false end.

(** Some effect of kind [p1] occurs before some effect of kind [p2]. *)
Fixpoint occurs_before (p1 p2 : Effect -> bool) (es : list Effect) : bool :=
  match es with
  | [] => false
  | e :: rest => (p1 e && existsb p2 rest) || occurs_before p1 p2 rest
  end.

(** Every clearing of the cart comes after a submission attempt. *)
Fixpoint clears_follow_submission (submitted : bool) (es : list Effect) : bool :=
  match es with
  | [] => true
  | ECartClear :: rest => submitted && clears_follow_submission submitted rest
  | ESendToVMC _ :: rest => clears_follow_submission true rest
  | _ :: rest => clears_follow_submission submitted rest
  end.

(** A cart line that the availability check of [confirmCheckout] refuses:
    more is reserved than the record holds, or the record's stock is not a
    finite number. *)
Definition offending (item : RawProduct) (qty : Q) : Prop :=
  match shelf_life_count item with
  | Fin current => (current < qty)%Q
  | _ => True
  end.

(** Every cart line has its record in the file. *)
Definition cart_in_file (data : list RawProduct) (c : list (Q * Q)) : Prop :=
  forall productId qty, In (productId, qty) c ->
    exists idx item, confirm_record data productId = Some (idx, item).

(** A record, a file and a state with the [is_active] flags overwritten:
    two states with the same image differ in those flags only. *)
Definition set_is_active (b : bool) (p : RawProduct) : RawProduct :=
  {| product_id := product_id p; product_name := product_name p;
     product_price := product_price p;
     shelf_life_count := shelf_life_count p; is_active := b |}.

Definition forget_flags (data : list RawProduct) : list RawProduct :=
  set_is_active true <$> data.

Definition forget_active (w : World) : World :=
  {| file := forget_flags <$> file w;
     writable := writable w; cart := cart w;
     cachedProducts := cachedProducts w; lastLoaded := lastLoaded w;
     vmcClient := vmcClient w; log := log w |}.

(** The product list [loadProducts] serves at a clock reading. *)
Definition catalog_at (now : Z) (w : World) : option (list JsonProduct) :=
  fst (loadProducts now w).

(** The cache, when filled, holds the products of the file as it is. *)
Definition cache_coherent (w : World) : Prop :=
  forall products, cachedProducts w = Some products ->
    exists data, file w = Some data /\ products = map toJsonProduct data.

Definition order_lines (r : Response) : option (list OrderLine) :=
  match r with R200_order _ items _ => Some items | _ => None end.

Definition order_total (r : Response) : option Q :=
  match r with R200_order _ _ total => Some total | _ => None end.

Definition order_id (r : Response) : option string :=
  match r with R200_order orderId _ _ => Some orderId | _ => None end.

(** The routes of cart.routes.ts, and the backend serving requests one
    after the other from its start. *)
Inductive Request :=
| GET_cart
| POST_add (productId quantity : jsval)
| POST_clear
| POST_checkout_prepare (now_load now_id : Z)
| POST_checkout_confirm.

Definition router (rq : Request) : M Response :=
  match rq with
  | GET_cart => getCart
  | POST_add productId quantity => addToCart productId quantity
  | POST_clear => clearCart
  | POST_checkout_prepare now_load now_id => prepareCheckout now_load now_id
  | POST_checkout_confirm => confirmCheckout
  end.

(** The stock figures of data.json rewritten from outside the backend (a
    refill, another process selling): ids, names and prices stay. *)
Definition restock (f : RawProduct -> jsnum) (data : list RawProduct)
    : list RawProduct :=
  (fun p => set_shelf_life_count (f p) p) <$> data.

(** What happens to the backend: a request served, or the stock edited
    under it. *)
Inductive Occurrence :=
| Served (rq : Request)
| Restocked (f : RawProduct -> jsnum).

Definition occur (o : Occurrence) (w : World) : World :=
  match o with
  | Served rq => snd (router rq w)
  | Restocked f =>
      {| file := restock f <$> file w; writable := writable w; cart := cart w;
         cachedProducts := cachedProducts w; lastLoaded := lastLoaded w;
         vmcClient := vmcClient w; log := log w |}
  end.

Definition history (os : list Occurrence) (w : World) : World :=
  fold_left (fun w o => occur o w) os w.

(** The cart holds products of the file only. *)
Definition cart_backed (w : World) : Prop :=
  match file w with
  | Some data => cart_in_file data (cart w)
  | None => cart w = []
  end.

(** The state at process start: empty cart, empty cache, no socket yet. *)
Definition boot (data : option (list RawProduct)) (can_write : bool) : World :=
  {| file := data; writable := can_write; cart := [];
     cachedProducts := None; lastLoaded := 0; vmcClient := LinkNone;
     log := [] |}.

(** The three facts the theorems about the handlers assume of a state. *)
Definition sound (w : World) : Prop :=
  Map_wf (cart w) /\ cache_coherent w /\ cart_backed w.

(** Fixtures for the scenarios. *)
Definition product (n stock : Z) (active : bool) : RawProduct :=
  {| product_id := Fin (inject_Z n); product_name := "item";
     product_price := Fin 10; shelf_life_count := Fin (inject_Z stock);
     is_active := active |}.

Definition kiosk (data : list RawProduct) (c : list (Q * Q)) : World :=
  {| file := Some data; writable := true; cart := c;
     cachedProducts := None; lastLoaded := 0; vmcClient := LinkOpen;
     log := [] |}.

Definition num (n : Z) : jsval := JNum (Fin (inject_Z n)).

(** ** Further notions *)

(** No two records of the file carry the same id. *)
Definition unique_ids (data : list RawProduct) : Prop :=
  forall i j a b,
    (product_id <$> data) !! i = Some (Fin a) ->
    (product_id <$> data) !! j = Some (Fin b) ->
    (a == b)%Q -> i = j.

(** The frame the controller parses out of what [sendToVMC] writes for
    [{ type: 'vend', items }]. *)
Definition vend_frame (items : list Q) : VmcServer.Frame :=
  VmcServer.Data (JStr "vend") (JArr ((fun q => JNum (Fin q)) <$> items)).

Definition is_retry (e : Effect) : bool :=
  match e with ESetTimeout _ _ => true | _ => false end.

Definition is_read (e : Effect) : bool :=
  match e with EReadFile => true | _ => false end.


(** [cartTotals] of Products.tsx: the loop over the cart shown in the
    drawer, against the product list the page holds. *)
Definition cartTotals (cartItems : list (Q * Q)) (products : list JsonProduct)
    : Q * Q :=
  fold_left
    (fun '(totalQty, totalAmount) '(productId, quantity) =>
       ((totalQty + quantity)%Q,
        match List.find (fun pr => strict_eq (id pr) (Fin productId)) products with
        | Some p => (totalAmount + price p * quantity)%Q
        | None => totalAmount
        end))
    cartItems (0%Q, 0%Q).

(** Every cart line is for a non-zero id and a positive quantity. *)
Definition cart_positive (w : World) : Prop :=
  forall pid q, In (pid, q) (cart w) -> ~ (pid == 0)%Q /\ (0 < q)%Q.


(** A kiosk whose backend has no socket to the controller. *)
Definition kiosk_offline (data : list RawProduct) (c : list (Q * Q)) : World :=
  {| file := Some data; writable := true; cart := c;
     cachedProducts := None; lastLoaded := 0; vmcClient := LinkNone;
     log := [] |}.

(** The timers of the controller in every state it reaches: none while
    idle, with the state as at start; while vending, the completion timer
    recorded in the state, after the status interval if that one is still
    running. *)
Module VmcTimers.
Import VmcServer.

Definition tidy (s : Server) : Prop :=
  match status (vendingState s) with
  | idle => vendingState s = vendingState initial /\ timers s = []
  | vending =>
      exists hT, timeout (vendingState s) = Some hT /\
        ((exists hI, statusInterval (vendingState s) = Some hI /\ hI <> hT /\
                     timers s = [(hI, Interval); (hT, Timeout)]) \/
         (statusInterval (vendingState s) = None /\
          timers s = [(hT, Timeout)]))
  end.



End VmcTimers.

(** ** Products.tsx: trays, pages and item numbers *)

Module Trays.

Definition ITEMS_PER_TRAY : Z := 6.
Definition ITEMS_PER_PAGE : Z := ITEMS_PER_TRAY.

(** What [parseInt(pageParam, 10)] returns: NaN, a whole number, or an
    infinity (a digit string beyond the range of the doubles). *)
Inductive Parsed := PNaN | PInt (n : Z) | PInfinity | PNegInfinity.

(** The page read from the URL. *)
Inductive Page := Whole (n : Z) | Unbounded.

(** [currentPageFromUrl]; the parameter is [None] when [pageParam] is
    [null] or the empty string. *)
Definition currentPageFromUrl (pageParam : option Parsed) : Page :=
  match pageParam with
  | None => Whole 1
  | Some parsed =>
      match parsed with
      | PNaN => Whole 1
      | PInt n => if (n <? 1)%Z then Whole 1 else Whole n
      | PNegInfinity => Whole 1
      | PInfinity => Unbounded
      end
  end.

(** [Math.max(1, Math.ceil(filteredProducts.length / ITEMS_PER_PAGE))] *)
Definition TOTAL_PAGES (len : nat) : Z :=
  Z.max 1 (Qceiling (inject_Z (Z.of_nat len) / inject_Z ITEMS_PER_PAGE)).

(** [Math.min(currentPageFromUrl, TOTAL_PAGES)] *)
Definition Math_min (p : Page) (n : Z) : Z :=
  match p with Whole m => Z.min m n | Unbounded => n end.

Definition validPage (cur : Page) (len : nat) : Z :=
  if (TOTAL_PAGES len =? 0)%Z then 1%Z
  else Z.max 1 (Math_min cur (TOTAL_PAGES len)).

Definition startIndex (cur : Page) (len : nat) : Z :=
  Z.max 0 ((validPage cur len - 1) * ITEMS_PER_PAGE).

Definition endIndex (cur : Page) (len : nat) : Z :=
  Z.min (startIndex cur len + ITEMS_PER_PAGE) (Z.of_nat len).

(** [Array.prototype.slice(start, end)] on whole indices: a negative index
    counts from the end, and the bounds are clamped to the array. *)
Definition slice {A} (start end_ : Z) (l : list A) : list A :=
  let len := Z.of_nat (length l) in
  let k := if (start <? 0)%Z then Z.max (len + start) 0 else Z.min start len in
  let final := if (end_ <? 0)%Z then Z.max (len + end_) 0 else Z.min end_ len in
  take (Z.to_nat (final - k)) (drop (Z.to_nat k) l).

Definition trayProducts {A} (cur : Page) (filteredProducts : list A) : list A :=
  slice (startIndex cur (length filteredProducts))
        (endIndex cur (length filteredProducts)) filteredProducts.

Definition getItemNumber (cur : Page) (len : nat) (itemIndex : nat) : Z :=
  ((validPage cur len - 1) * ITEMS_PER_PAGE + Z.of_nat itemIndex + 1)%Z.

(** The pages the pagination dots offer:
    [Array.from({ length: TOTAL_PAGES }, (_, i) => i + 1)]. *)
Definition page_dots (len : nat) : list Z :=
  (fun i => (Z.of_nat i + 1)%Z) <$> seq 0 (Z.to_nat (TOTAL_PAGES len)).

End Trays.

(** ** services/websocket.ts of the kiosk UI: its link to the controller *)

(** [readyState] of a WebSocket. *)
Inductive ReadyState := CONNECTING | OPEN | CLOSING | CLOSED.

Module VMCWebSocket.

(** What the class does to the browser and to its listeners. *)
Inductive Action :=
| NewSocket (id : nat)
| SetTimeout (handle : nat) (delay : Z)
| ClearTimeout (handle : nat)
| SocketClose (id : nat)
| SocketSend (id : nat)
| Listener (callback : nat) (data : jsval).

(** The fields of the object, and of the browser the sockets it has made
    (a socket is named by its place in [sockets]) and the timers that are
    set and have neither fired nor been cleared. Timer handles are
    positive, hence truthy. [url_ok] says whether [new WebSocket(VMC_WS_URL)]
    accepts the URL or throws. *)
Record Client := {
  ws : option nat;
  reconnectTimeout : option nat;
  listeners : list nat;
  reconnectAttempts : Z;
  sockets : list ReadyState;
  pending : list (nat * Z);
  next_timer : nat;
  url_ok : bool
}.

Definition maxReconnectAttempts : Z := 5.

Definition initial (url : bool) : Client :=
  {| ws := None; reconnectTimeout := None; listeners := [];
     reconnectAttempts := 0; sockets := []; pending := [];
     next_timer := 1; url_ok := url |}.

(** [this.ws?.readyState === WebSocket.OPEN] *)
Definition is_open (c : Client) : bool :=
  match ws c with
  | Some id => match sockets c !! id with Some OPEN => true | _ => false end
  | None => false
  end.

(** [clearTimeout(h)] *)
Definition clearTimeout (h : nat) (p : list (nat * Z)) : list (nat * Z) :=
  List.filter (fun t => negb (fst t =? h)%nat) p.

Definition attemptReconnect (c : Client) : list Action * Client :=
  if (reconnectAttempts c >=? maxReconnectAttempts)%Z then ([], c)
  else
    match reconnectTimeout c with
    | Some _ => ([], c)
    | None =>
        let delay := Z.min (1000 * 2 ^ reconnectAttempts c) 10000 in
        let h := next_timer c in
        ([SetTimeout h delay],
         {| ws := ws c; reconnectTimeout := Some h; listeners := listeners c;
            reconnectAttempts := reconnectAttempts c + 1;
            sockets := sockets c; pending := pending c ++ [(h, delay)];
            next_timer := S h; url_ok := url_ok c |})
    end.

Definition connect (c : Client) : list Action * Client :=
  if is_open c then ([], c)
  else if url_ok c then
    let id := length (sockets c) in
    ([NewSocket id],
     {| ws := Some id; reconnectTimeout := reconnectTimeout c;
        listeners := listeners c; reconnectAttempts := reconnectAttempts c;
        sockets := sockets c ++ [CONNECTING]; pending := pending c;
        next_timer := next_timer c; url_ok := url_ok c |})
  else attemptReconnect c.

(** The handlers [connect] installs on the socket it makes. *)
Definition onopen (c : Client) : list Action * Client :=
  match reconnectTimeout c with
  | Some h =>
      ([ClearTimeout h],
       {| ws := ws c; reconnectTimeout := None; listeners := listeners c;
          reconnectAttempts := 0; sockets := sockets c;
          pending := clearTimeout h (pending c);
          next_timer := next_timer c; url_ok := url_ok c |})
  | None =>
      ([],
       {| ws := ws c; reconnectTimeout := None; listeners := listeners c;
          reconnectAttempts := 0; sockets := sockets c; pending := pending c;
          next_timer := next_timer c; url_ok := url_ok c |})
  end.

(** [data] is [None] when [JSON.parse(event.data)] throws. *)
Definition onmessage (data : option jsval) (c : Client) : list Action * Client :=
  match data with
  | Some d => ((fun l => Listener l d) <$> listeners c, c)
  | None => ([], c)
  end.

Definition onclose (c : Client) : list Action * Client :=
  attemptReconnect
    {| ws := None; reconnectTimeout := reconnectTimeout c;
       listeners := listeners c; reconnectAttempts := reconnectAttempts c;
       sockets := sockets c; pending := pending c;
       next_timer := next_timer c; url_ok := url_ok c |}.

(** The callback of the reconnect timer. *)
Definition reconnect_callback (c : Client) : list Action * Client :=
  connect
    {| ws := ws c; reconnectTimeout := None; listeners := listeners c;
       reconnectAttempts := reconnectAttempts c; sockets := sockets c;
       pending := pending c; next_timer := next_timer c; url_ok := url_ok c |}.

(** [ws.close()]: an open or connecting socket starts closing. *)
Definition closing (st : ReadyState) : ReadyState :=
  match st with CONNECTING | OPEN => CLOSING | _ => st end.

Definition disconnect (c : Client) : list Action * Client :=
  let '(a1, p) :=
    match reconnectTimeout c with
    | Some h => ([ClearTimeout h], clearTimeout h (pending c))
    | None => ([], pending c)
    end in
  let '(a2, ss) :=
    match ws c with
    | Some id => ([SocketClose id], alter closing id (sockets c))
    | None => ([], sockets c)
    end in
  (a1 ++ a2,
   {| ws := None; reconnectTimeout := None; listeners := [];
      reconnectAttempts := reconnectAttempts c; sockets := ss; pending := p;
      next_timer := next_timer c; url_ok := url_ok c |}).

(** [listeners] is a [Set]: adding a member again changes nothing. *)
Definition set_add (x : nat) (l : list nat) : list nat :=
  if existsb (Nat.eqb x) l then l else l ++ [x].

Definition set_delete (x : nat) (l : list nat) : list nat :=
  List.filter (fun y => negb (y =? x)%nat) l.

Definition with_listeners (l : list nat) (c : Client) : Client :=
  {| ws := ws c; reconnectTimeout := reconnectTimeout c; listeners := l;
     reconnectAttempts := reconnectAttempts c; sockets := sockets c;
     pending := pending c; next_timer := next_timer c; url_ok := url_ok c |}.

Definition onMessage (callback : nat) (c : Client) : list Action * Client :=
  ([], with_listeners (set_add callback (listeners c)) c).

(** The function [onMessage] returns. *)
Definition unsubscribe (callback : nat) (c : Client) : list Action * Client :=
  ([], with_listeners (set_delete callback (listeners c)) c).

Definition sendStatusRequest (c : Client) : list Action * Client :=
  match ws c with
  | Some id =>
      match sockets c !! id with
      | Some OPEN => ([SocketSend id], c)
      | _ => ([], c)
      end
  | None => ([], c)
  end.

(** What can happen to the object: a call of one of its methods, an event
    of one of its sockets, the firing of one of its timers. *)
Inductive Event :=
| Connect
| Disconnect
| OnMessage (callback : nat)
| Unsubscribe (callback : nat)
| SendStatusRequest
| Opened (id : nat)
| Closed (id : nat)
| Received (id : nat) (data : option jsval)
| Errored (id : nat)
| Fired (handle : nat).

Definition with_socket (id : nat) (st : ReadyState) (c : Client) : Client :=
  {| ws := ws c; reconnectTimeout := reconnectTimeout c;
     listeners := listeners c; reconnectAttempts := reconnectAttempts c;
     sockets := <[id := st]> (sockets c); pending := pending c;
     next_timer := next_timer c; url_ok := url_ok c |}.

Definition without_timer (h : nat) (c : Client) : Client :=
  {| ws := ws c; reconnectTimeout := reconnectTimeout c;
     listeners := listeners c; reconnectAttempts := reconnectAttempts c;
     sockets := sockets c; pending := clearTimeout h (pending c);
     next_timer := next_timer c; url_ok := url_ok c |}.

(** The browser delivers [open] to a connecting socket, [close] once to a
    socket that is not closed yet, messages to an open socket, and fires
    a timer that is pending; anything else does not happen and is a no-op
    here. *)
Definition step (e : Event) (c : Client) : list Action * Client :=
  match e with
  | Connect => connect c
  | Disconnect => disconnect c
  | OnMessage cb => onMessage cb c
  | Unsubscribe cb => unsubscribe cb c
  | SendStatusRequest => sendStatusRequest c
  | Opened id =>
      match sockets c !! id with
      | Some CONNECTING => onopen (with_socket id OPEN c)
      | _ => ([], c)
      end
  | Closed id =>
      match sockets c !! id with
      | Some CLOSED | None => ([], c)
      | Some _ => onclose (with_socket id CLOSED c)
      end
  | Received id data =>
      match sockets c !! id with
      | Some OPEN => onmessage data c
      | _ => ([], c)
      end
  | Errored id => ([], c)
  | Fired h =>
      if existsb (fun t => (fst t =? h)%nat) (pending c)
      then reconnect_callback (without_timer h c)
      else ([], c)
  end.

Fixpoint run (es : list Event) (c : Client) : list Action * Client :=
  match es with
  | [] => ([], c)
  | e :: es =>
      let '(a, c1) := step e c in
      let '(b, c2) := run es c1 in
      (a ++ b, c2)
  end.

(** The delays of the timers set, in order. *)
Definition delays (acts : list Action) : list Z :=
  omap (fun a => match a with SetTimeout _ d => Some d | _ => None end) acts.

Definition is_opened (e : Event) : bool :=
  match e with Opened _ => true | _ => false end.

(** The [k]-th delay of the backoff. *)
Definition backoff (k : Z) : Z := Z.min (1000 * 2 ^ k) 10000.

(** What holds of the object between two events: the attempt counter is in
    range, the pending timers are the one [reconnectTimeout] names, and the
    socket the object holds is connecting or open. *)
Definition settled (c : Client) : Prop :=
  (0 <= reconnectAttempts c <= 5)%Z /\
  fst <$> pending c = option_list (reconnectTimeout c) /\
  (forall id, ws c = Some id ->
     sockets c !! id = Some CONNECTING \/ sockets c !! id = Some OPEN).

End VMCWebSocket.

(** ** backend/src/websocket/vmc.ts: the sockets behind the backend's link *)

Module VmcLink.

Inductive Action :=
| NewSocket (id : nat)
| SetTimeout (handle : nat) (delay : Z)
| ClearTimeout (handle : nat)
| SocketSend (id : nat) (message : jsval).

(** The module's two variables, and of the process the sockets it has made
    (named by their place in [sockets]) and the timers that are set and
    have neither fired nor been cleared. A [Timeout] object is truthy.
    [url_ok] says whether [new WebSocket(VMC_WS_URL)] accepts the URL or
    throws. *)
Record State := {
  vmcClient : option nat;
  reconnectTimeout : option nat;
  sockets : list ReadyState;
  pending : list nat;
  next_timer : nat;
  url_ok : bool
}.

Definition initial (url : bool) : State :=
  {| vmcClient := None; reconnectTimeout := None; sockets := [];
     pending := []; next_timer := 0; url_ok := url |}.

(** [vmcClient?.readyState === WebSocket.OPEN] *)
Definition is_open (s : State) : bool :=
  match vmcClient s with
  | Some id => match sockets s !! id with Some OPEN => true | _ => false end
  | None => false
  end.

(** [connectToVMC]: the socket it returns ([None] for [null]). *)
Definition connectToVMC (s : State) : option nat * list Action * State :=
  if is_open s then (vmcClient s, [], s)
  else if url_ok s then
    let id := length (sockets s) in
    (Some id, [NewSocket id],
     {| vmcClient := Some id; reconnectTimeout := reconnectTimeout s;
        sockets := sockets s ++ [CONNECTING]; pending := pending s;
        next_timer := next_timer s; url_ok := url_ok s |})
  else (None, [], s).

(** The handlers [connectToVMC] installs on the socket it makes; the
    [message] and [error] handlers only log. *)
Definition on_open (s : State) : list Action * State :=
  match reconnectTimeout s with
  | Some h =>
      ([ClearTimeout h],
       {| vmcClient := vmcClient s; reconnectTimeout := None;
          sockets := sockets s;
          pending := List.filter (fun t => negb (t =? h)%nat) (pending s);
          next_timer := next_timer s; url_ok := url_ok s |})
  | None => ([], s)
  end.

Definition on_close (s : State) : list Action * State :=
  match reconnectTimeout s with
  | Some _ =>
      ([],
       {| vmcClient := None; reconnectTimeout := reconnectTimeout s;
          sockets := sockets s; pending := pending s;
          next_timer := next_timer s; url_ok := url_ok s |})
  | None =>
      let h := next_timer s in
      ([SetTimeout h 3000],
       {| vmcClient := None; reconnectTimeout := Some h;
          sockets := sockets s; pending := pending s ++ [h];
          next_timer := S h; url_ok := url_ok s |})
  end.

(** The callback of the reconnect timer: it leaves [reconnectTimeout] as
    it is. *)
Definition reconnect_callback (s : State) : list Action * State :=
  let '(_, a, s') := connectToVMC s in (a, s').

Definition sendToVMC (message : jsval) (s : State) : bool * list Action * State :=
  if is_open s then
    match vmcClient s with
    | Some id => (true, [SocketSend id message], s)
    | None => (true, [], s)
    end
  else
    let '(_, a, s') := connectToVMC s in (false, a, s').

Inductive Event :=
| ConnectToVMC
| SendToVMC (message : jsval)
| Opened (id : nat)
| Closed (id : nat)
| Received (id : nat)
| Errored (id : nat)
| Fired (handle : nat).

Definition with_socket (id : nat) (st : ReadyState) (s : State) : State :=
  {| vmcClient := vmcClient s; reconnectTimeout := reconnectTimeout s;
     sockets := <[id := st]> (sockets s); pending := pending s;
     next_timer := next_timer s; url_ok := url_ok s |}.

Definition without_timer (h : nat) (s : State) : State :=
  {| vmcClient := vmcClient s; reconnectTimeout := reconnectTimeout s;
     sockets := sockets s;
     pending := List.filter (fun t => negb (t =? h)%nat) (pending s);
     next_timer := next_timer s; url_ok := url_ok s |}.

(** [open] comes to a connecting socket, [close] once to a socket that is
    not closed yet, and a timer fires while it is pending. *)
Definition step (e : Event) (s : State) : list Action * State :=
  match e with
  | ConnectToVMC => let '(_, a, s') := connectToVMC s in (a, s')
  | SendToVMC m => let '(_, a, s') := sendToVMC m s in (a, s')
  | Opened id =>
      match sockets s !! id with
      | Some CONNECTING => on_open (with_socket id OPEN s)
      | _ => ([], s)
      end
  | Closed id =>
      match sockets s !! id with
      | Some CLOSED | None => ([], s)
      | Some _ => on_close (with_socket id CLOSED s)
      end
  | Received id => ([], s)
  | Errored id => ([], s)
  | Fired h =>
      if existsb (Nat.eqb h) (pending s)
      then reconnect_callback (without_timer h s)
      else ([], s)
  end.

Fixpoint run (es : list Event) (s : State) : list Action * State :=
  match es with
  | [] => ([], s)
  | e :: es =>
      let '(a, s1) := step e s in
      let '(b, s2) := run es s1 in
      (a ++ b, s2)
  end.

(** The reconnect timers set and the sockets made, in order. *)
Definition timeouts (acts : list Action) : list Z :=
  omap (fun a => match a with SetTimeout _ d => Some d | _ => None end) acts.

Definition new_sockets (acts : list Action) : list nat :=
  omap (fun a => match a with NewSocket id => Some id | _ => None end) acts.

Definition is_opened (e : Event) : bool :=
  match e with Opened _ => true | _ => false end.

(** A call from the application, as against an event of a socket or a
    timer. *)
Definition is_call (e : Event) : bool :=
  match e with ConnectToVMC | SendToVMC _ => true | _ => false end.

(** Between two events a pending timer is the one [reconnectTimeout]
    names. *)
Definition settled (s : State) : Prop :=
  pending s = [] \/
  exists h, pending s = [h] /\ reconnectTimeout s = Some h.

(** The link as the cart controller sees it. *)
Definition link_of (s : State) : Link :=
  match vmcClient s with
  | None => LinkNone
  | Some _ => if is_open s then LinkOpen else LinkConnecting
  end.

End VmcLink.

(** * Properties *)

(** Unfolds the primitives of the monad, so that a handler applied to a
    state computes. *)
Ltac run_handler :=
  unfold bind, ret, emit, readFile, cart_items, cart_set, cart_clear,
    set_cart, set_file, set_cache, set_vmcClient;
  simpl.

(** ** Numbers and maps *)

Lemma Qeq_bool_true (a b : Q) : Qeq_bool a b = true <-> (a == b)%Q.
Proof. apply Qeq_bool_iff. Qed.

Lemma Qeq_bool_false (a b : Q) : Qeq_bool a b = false <-> ~ (a == b)%Q.
Proof.
  rewrite <- Qeq_bool_iff. destruct (Qeq_bool a b); split; congruence.
Qed.

Lemma Qgt_bool_true (a b : Q) : Qgt_bool a b = true <-> (b < a)%Q.
Proof.
  unfold Qgt_bool. rewrite negb_true_iff, <- not_true_iff_false, Qle_bool_iff.
  split; [apply Qnot_le_lt | apply Qlt_not_le].
Qed.

Lemma Qgt_bool_false (a b : Q) : Qgt_bool a b = false <-> (a <= b)%Q.
Proof.
  unfold Qgt_bool. rewrite negb_false_iff. apply Qle_bool_iff.
Qed.

Lemma Map_get_set {V} (m : list (Q * V)) (k k' : Q) (v : V) :
  Map_get (Map_set m k v) k' =
  if Qeq_bool k k' then Some v else Map_get m k'.
Proof.
  induction m as [|[k0 v0] m IH]; simpl.
  - reflexivity.
  - destruct (Qeq_bool k0 k) eqn:E0; simpl.
    + destruct (Qeq_bool k0 k') eqn:E1, (Qeq_bool k k') eqn:E2; try reflexivity.
      * apply Qeq_bool_true in E0, E1. apply Qeq_bool_false in E2.
        destruct E2. rewrite <- E0. exact E1.
      * apply Qeq_bool_true in E0, E2. apply Qeq_bool_false in E1.
        destruct E1. rewrite E0. exact E2.
    + destruct (Qeq_bool k0 k') eqn:E1.
      * destruct (Qeq_bool k k') eqn:E2; [|reflexivity].
        apply Qeq_bool_true in E1, E2. apply Qeq_bool_false in E0.
        destruct E0. rewrite E1, E2. reflexivity.
      * exact IH.
Qed.


Lemma Map_get_In {V} (m : list (Q * V)) (k : Q) (v : V) :
  Map_get m k = Some v -> exists k0, In (k0, v) m /\ (k0 == k)%Q.
Proof.
  induction m as [|[k0 v0] m IH]; simpl; [discriminate|].
  destruct (Qeq_bool k0 k) eqn:E.
  - intros [= ->]. exists k0. split; [now left | now apply Qeq_bool_true].
  - intros H. destruct (IH H) as (k1 & Hin & Hk). exists k1. auto.
Qed.


Lemma Map_set_wf {V} (m : list (Q * V)) (k : Q) (v : V) :
  Map_wf m -> Map_wf (Map_set m k v).
Proof.
  induction m as [|[k0 v0] m IH]; simpl.
  - auto.
  - intros [Hk Hm]. destruct (Qeq_bool k0 k) eqn:E; simpl.
    + auto.
    + split; [|auto]. rewrite Map_get_set.
      destruct (Qeq_bool k k0) eqn:E'; [|exact Hk].
      apply Qeq_bool_true in E'. apply Qeq_bool_false in E.
      destruct E. symmetry. exact E'.
Qed.

(** ** addToCart *)

Lemma findIndex_Some {A} (pred : A -> bool) (data : list A) (idx : nat) :
  findIndex pred data = Some idx ->
  exists p, data !! idx = Some p /\ pred p = true.
Proof.
  revert idx. induction data as [|p data IH]; simpl; intros idx; [discriminate|].
  destruct (pred p) eqn:E.
  - intros [= <-]. exists p. auto.
  - destruct (findIndex pred data) as [j|]; simpl; [|discriminate].
    intros [= <-]. destruct (IH j eq_refl) as (q & Hq & Hp). exists q. auto.
Qed.

Lemma valid_request (pid qty : Q) :
  ~ (pid == 0)%Q -> (0 < qty)%Q ->
  invalid_request (JNum (Fin pid)) (JNum (Fin qty)) = false.
Proof.
  intros Hp Hq. unfold invalid_request; simpl.
  apply Qeq_bool_false in Hp. rewrite Hp; simpl.
  assert (Hz : Qeq_bool qty 0 = false).
  { apply Qeq_bool_false. intros E. rewrite E in Hq. revert Hq. apply Qlt_irrefl. }
  rewrite Hz; simpl.
  apply not_true_is_false. rewrite Qle_bool_iff. now apply Qlt_not_le.
Qed.

(** The guard of [addToCart] passes exactly the finite numbers with a
    non-zero id and a positive quantity. *)
Lemma invalid_request_false (productId quantity : jsval) :
  invalid_request productId quantity = false <->
  exists pid qty, productId = JNum (Fin pid) /\ quantity = JNum (Fin qty) /\
                  ~ (pid == 0)%Q /\ (0 < qty)%Q.
Proof.
  split.
  - unfold invalid_request. intros H.
    repeat (apply orb_false_elim in H; destruct H as [H ?]).
    destruct productId as [| |?|[p| | |]|?|?|]; try discriminate.
    destruct quantity as [| |?|[q| | |]|?|?|]; try discriminate.
    simpl in *. exists p, q. repeat split.
    + apply Qeq_bool_false. now destruct (Qeq_bool p 0).
    + apply Qnot_le_lt. rewrite <- Qle_bool_iff. congruence.
  - intros (pid & qty & -> & -> & Hp & Hq). now apply valid_request.
Qed.

Lemma addToCart_invalid (productId quantity : jsval) (w : World) :
  invalid_request productId quantity = true ->
  addToCart productId quantity w = (R400_invalid_request, w).
Proof. unfold addToCart. now intros ->. Qed.

Lemma addToCart_run (w : World) (data : list RawProduct) (pid qty available : Q) :
  ~ (pid == 0)%Q -> (0 < qty)%Q ->
  file w = Some data ->
  live_stock data pid = Some (Fin available) ->
  let inCart := default 0%Q (Map_get (cart w) pid) in
  addToCart (JNum (Fin pid)) (JNum (Fin qty)) w =
  if Qgt_bool (inCart + qty)%Q available
  then (R400_insufficient_stock pid available inCart qty,
        {| file := file w; writable := writable w; cart := cart w;
           cachedProducts := cachedProducts w; lastLoaded := lastLoaded w;
           vmcClient := vmcClient w; log := log w ++ [EReadFile] |})
  else (R200_cart (Map_set (cart w) pid (inCart + qty)%Q),
        {| file := file w; writable := writable w;
           cart := Map_set (cart w) pid (inCart + qty)%Q;
           cachedProducts := cachedProducts w; lastLoaded := lastLoaded w;
           vmcClient := vmcClient w;
           log := (log w ++ [EReadFile]) ++ [ECartSet pid (inCart + qty)%Q] |}).
Proof.
  intros Hp Hq Hf Hs inCart. unfold addToCart.
  rewrite (valid_request _ _ Hp Hq).
  unfold live_stock in Hs. run_handler. rewrite Hf.
  destruct (findIndex _ data) as [idx|]; simpl in Hs; [|discriminate].
  destruct (data !! idx) as [p|]; simpl in Hs; [|discriminate].
  injection Hs as ->. unfold cart_items, ret; simpl. fold inCart.
  destruct (Qgt_bool (inCart + qty)%Q available); reflexivity.
Qed.



(** What the guard refuses as a quantity: anything that is not a finite
    number, and every finite number that is zero or negative. The cart and
    the rest of the state stay as they were. *)
Lemma addToCart_rejects_quantity (productId quantity : jsval) (w : World) :
  Number_isFinite quantity = false \/
  (exists q, quantity = JNum (Fin q) /\ (q <= 0)%Q) ->
  addToCart productId quantity w = (R400_invalid_request, w).
Proof.
  intros H. apply addToCart_invalid. unfold invalid_request.
  destruct H as [H | (q & -> & Hq)].
  - rewrite H. simpl. now rewrite !orb_true_r.
  - simpl. apply Qle_bool_iff in Hq. rewrite Hq. now rewrite !orb_true_r.
Qed.

(** C8. The guard does not ask for an integer: a request for 3/2 units of
    product 7 (stock 2) is accepted and the cart then holds 3/2 of it. *)
Theorem addToCart_accepts_fractional_quantity :
  addToCart (num 7) (JNum (Fin (3 # 2))) (kiosk [product 7 2 true] []) =
  (R200_cart [(7%Q, 0 + (3 # 2))%Q],
   {| file := Some [product 7 2 true]; writable := true;
      cart := [(7%Q, 0 + (3 # 2))%Q];
      cachedProducts := None; lastLoaded := 0; vmcClient := LinkOpen;
      log := [EReadFile; ECartSet 7 (0 + (3 # 2))] |}).
Proof. reflexivity. Qed.

(** Such a cart, once confirmed, takes 3/2 from the stock and asks the
    controller for two units. *)
Lemma confirmCheckout_fractional_quantity :
  let (r, w') := confirmCheckout (kiosk [product 7 2 true] [(7%Q, 3 # 2)]) in
  r = R200_confirmed [(7%Q, 3 # 2)] true 2 /\
  file w' = Some [set_shelf_life_count (Fin (inject_Z 2 - (3 # 2)))
                                      (product 7 2 true)] /\
  In (ESocketSend [7%Q; 7%Q]) (log w').
Proof. vm_compute. repeat split; auto. right. right. right. right. right. now left. Qed.

(** ** confirmCheckout *)

(** [confirmCheckout] as one case analysis. *)
Lemma confirmCheckout_run (w : World) :
  confirmCheckout w =
  match file w with
  | None => (R500, logged [EReadFile] w)
  | Some data =>
      match validate data (build_index data) (cart w) with
      | Some early => (early, logged [EReadFile] w)
      | None =>
          match deduct (build_index data) (cart w) data with
          | None => (R500, logged [EReadFile] w)
          | Some data' =>
              if writable w then
                let open := link_open (vmcClient w) in
                let items := expand (cart w) in
                (R200_confirmed (cart w) open (length items),
                 {| file := Some data'; writable := true; cart := [];
                    cachedProducts := None; lastLoaded := 0;
                    vmcClient := if open then LinkOpen else LinkConnecting;
                    log := log w ++ confirm_effects open items |})
              else (R500, logged [EReadFile] w)
          end
      end
  end.
Proof.
  unfold confirmCheckout, bind, readFile, emit, cart_items, ret, logged; simpl.
  destruct (file w) as [data|]; [|reflexivity].
  destruct (validate _ _ _); [reflexivity|].
  destruct (deduct _ _ _) as [data'|]; [|reflexivity].
  unfold writeFile; simpl. destruct (writable w) eqn:Hw; [|reflexivity].
  unfold bind, emit, set_file, ret, invalidateJsonCache, cart_clear,
    set_cache, set_cart, sendToVMC, connectToVMC, setTimeout_resend,
    set_vmcClient, bind, emit, ret; simpl.
  destruct (vmcClient w); simpl; rewrite <- ?app_assoc; reflexivity.
Qed.

Lemma confirm_record_Some (data : list RawProduct) (pid : Q) idx item :
  confirm_record data pid = Some (idx, item) <->
  Map_get (build_index data) pid = Some idx /\ data !! idx = Some item.
Proof.
  unfold confirm_record.
  destruct (Map_get (build_index data) pid) as [i|]; simpl.
  - destruct (data !! i) as [it|] eqn:E; simpl.
    + split; [intros [= <- <-]; auto | intros [[= <-] H]; congruence].
    + split; [discriminate | intros [[= <-] H]; congruence].
  - split; [discriminate | intros [H _]; discriminate].
Qed.

Lemma check_fails_offending (item : RawProduct) (qty : Q) :
  negb (isFinite (shelf_life_count item)) || lt (shelf_life_count item) (Fin qty)
    = true <-> offending item qty.
Proof.
  unfold offending. destruct (shelf_life_count item) as [cur| | |]; simpl;
    try (split; auto; fail).
  rewrite negb_true_iff, <- not_true_iff_false, Qle_bool_iff.
  split; [apply Qnot_le_lt | apply Qlt_not_le].
Qed.

(** The validation loop stops at a line: one without record, or one that
    the availability check refuses. *)
Lemma validate_Some (data : list RawProduct) ix (entries : list (Q * Q)) r :
  validate data ix entries = Some r ->
  (forall pid qty, In (pid, qty) entries ->
     exists idx item, Map_get ix pid = Some idx /\ data !! idx = Some item) ->
  exists pid qty idx item,
    In (pid, qty) entries /\ Map_get ix pid = Some idx /\
    data !! idx = Some item /\ offending item qty /\
    r = R400_confirm_insufficient pid (shelf_life_count item) qty.
Proof.
  induction entries as [|[pid qty] rest IH]; simpl; [discriminate|].
  intros Hv Hall.
  destruct (Hall pid qty) as (idx & item & Hi & Hd); [now left|].
  rewrite Hi, Hd in Hv.
  destruct (negb _ || _) eqn:E.
  - injection Hv as <-. apply check_fails_offending in E.
    exists pid, qty, idx, item. auto.
  - destruct IH as (p & q & i & it & Hin & ?); [exact Hv | intros p' q' Hin'; apply (Hall p' q'); now right|].
    exists p, q, i, it. split; [now right | assumption].
Qed.

(** The loop runs through exactly when every line has a record with a
    finite stock of at least the reserved quantity. *)
Lemma validate_None (data : list RawProduct) ix (entries : list (Q * Q)) :
  validate data ix entries = None <->
  forall pid qty, In (pid, qty) entries ->
    exists idx item cur, Map_get ix pid = Some idx /\ data !! idx = Some item /\
      shelf_life_count item = Fin cur /\ (qty <= cur)%Q.
Proof.
  induction entries as [|[pid qty] rest IH]; simpl.
  - split; [intros _ ? ? [] | reflexivity].
  - split.
    + intros Hv p q [[= <- <-]|Hin].
      * destruct (Map_get ix pid) as [idx|] eqn:Ei; [|discriminate].
        destruct (data !! idx) as [item|] eqn:Ed; [|discriminate].
        destruct (negb _ || _) eqn:E; [discriminate|].
        destruct (shelf_life_count item) as [cur| | |] eqn:Es; try discriminate.
        simpl in E. exists idx, item, cur. do 3 (split; [easy|]).
        apply Qle_bool_iff. now destruct (Qle_bool qty cur).
      * destruct (Map_get ix pid) as [idx|]; [|discriminate].
        destruct (data !! idx) as [item|]; [|discriminate].
        destruct (negb _ || _); [discriminate|].
        apply IH; assumption.
    + intros Hall.
      destruct (Hall pid qty) as (idx & item & cur & Hi & Hd & Hs & Hle); [now left|].
      rewrite Hi, Hd, Hs. simpl. apply Qle_bool_iff in Hle. rewrite Hle. simpl.
      apply IH. intros p' q' Hin'; apply (Hall p' q'); now right.
Qed.

(** C1. When every cart line has its record in the file and some line
    reserves more than the stock read for it, [confirmCheckout] answers with
    the insufficient-stock error naming a line that the availability check
    refuses, and writes nothing: the file and the cart are as before, and
    the only effect is the read of the file. *)
Theorem confirmCheckout_insufficient_stock (w : World) (data : list RawProduct)
    (pid qty : Q) (idx : nat) (item : RawProduct) (cur : Q) :
  file w = Some data ->
  cart_in_file data (cart w) ->
  In (pid, qty) (cart w) ->
  confirm_record data pid = Some (idx, item) ->
  shelf_life_count item = Fin cur ->
  (cur < qty)%Q ->
  exists pid' qty' idx' item',
    In (pid', qty') (cart w) /\
    confirm_record data pid' = Some (idx', item') /\
    offending item' qty' /\
    fst (confirmCheckout w) =
      R400_confirm_insufficient pid' (shelf_life_count item') qty' /\
    snd (confirmCheckout w) = logged [EReadFile] w /\
    file (snd (confirmCheckout w)) = file w /\
    cart (snd (confirmCheckout w)) = cart w.
Proof.
  intros Hf Hall Hin Hrec Hs Hlt.
  rewrite confirmCheckout_run, Hf.
  assert (Hall' : forall p q, In (p, q) (cart w) ->
            exists i it, Map_get (build_index data) p = Some i /\ data !! i = Some it).
  { intros p q Hpq. destruct (Hall p q Hpq) as (i & it & H).
    apply confirm_record_Some in H. eauto. }
  destruct (validate data (build_index data) (cart w)) as [r|] eqn:Hv.
  - destruct (validate_Some _ _ _ _ Hv Hall')
      as (p & q & i & it & Hpq & Hi & Hd & Hoff & ->).
    exists p, q, i, it. simpl. repeat split; auto.
    apply confirm_record_Some. auto.
  - exfalso. rewrite validate_None in Hv.
    destruct (Hv pid qty Hin) as (i & it & c & Hi & Hd & Hc & Hle).
    apply confirm_record_Some in Hrec. destruct Hrec as [Hi' Hd'].
    rewrite Hi' in Hi. injection Hi as <-. rewrite Hd' in Hd. injection Hd as <-.
    rewrite Hs in Hc. injection Hc as <-.
    revert Hlt. now apply Qle_not_lt.
Qed.

Lemma confirmCheckout_insufficient_stock_witness :
  let w := kiosk [product 9 3 true] [(9%Q, 5%Q)] in
  exists pid' qty' idx' item',
    In (pid', qty') (cart w) /\
    confirm_record [product 9 3 true] pid' = Some (idx', item') /\
    offending item' qty' /\
    fst (confirmCheckout w) =
      R400_confirm_insufficient pid' (shelf_life_count item') qty' /\
    snd (confirmCheckout w) = logged [EReadFile] w /\
    file (snd (confirmCheckout w)) = file w /\
    cart (snd (confirmCheckout w)) = cart w.
Proof.
  intros w.
  apply (confirmCheckout_insufficient_stock w [product 9 3 true] 9 5 0
           (product 9 3 true) 3).
  - reflexivity.
  - intros p q [[= <- <-]|[]]. exists 0%nat, (product 9 3 true). reflexivity.
  - simpl. now left.
  - reflexivity.
  - reflexivity.
  - reflexivity.
Defined.

(** The scenario of the specification: 5 of product 9 reserved, 3 left. *)
Example confirmCheckout_scenario_product_9 :
  confirmCheckout (kiosk [product 9 3 true] [(9%Q, 5%Q)]) =
  (R400_confirm_insufficient 9 (Fin 3) 5,
   logged [EReadFile] (kiosk [product 9 3 true] [(9%Q, 5%Q)])).
Proof. reflexivity. Qed.

(** Whatever makes [confirmCheckout] answer something else than its final
    success leaves the state as it was, the read of the file apart. *)
Lemma confirmCheckout_failure_atomic (w : World) :
  (forall checkedOut sent n,
     fst (confirmCheckout w) <> R200_confirmed checkedOut sent n) ->
  snd (confirmCheckout w) = logged [EReadFile] w.
Proof.
  rewrite confirmCheckout_run. intros H.
  destruct (file w) as [data|]; [|reflexivity].
  destruct (validate _ _ _); [reflexivity|].
  destruct (deduct _ _ _); [|reflexivity].
  destruct (writable w); [|reflexivity].
  exfalso. eapply H. reflexivity.
Qed.

(** *** The index built from the file *)

Lemma index_from_sound (rest pre : list RawProduct) (m : list (Q * nat)) :
  (forall k i, Map_get m k = Some i ->
     exists item q, (pre ++ rest) !! i = Some item /\
                    product_id item = Fin q /\ (q == k)%Q) ->
  forall k i, Map_get (index_from (length pre) rest m) k = Some i ->
     exists item q, (pre ++ rest) !! i = Some item /\
                    product_id item = Fin q /\ (q == k)%Q.
Proof.
  revert pre m. induction rest as [|p rest IH]; intros pre m Hm k i; simpl.
  - apply Hm.
  - replace (pre ++ p :: rest) with ((pre ++ [p]) ++ rest)
      by (rewrite <- app_assoc; reflexivity).
    replace (S (length pre)) with (length (pre ++ [p]))
      by (rewrite length_app; simpl; lia).
    apply IH. clear k i. intros k i.
    rewrite <- app_assoc; simpl.
    destruct (product_id p) as [q0| | |] eqn:Ep; try apply Hm.
    rewrite Map_get_set. destruct (Qeq_bool q0 k) eqn:E; [|apply Hm].
    intros [= <-]. exists p, q0. split; [|split; [exact Ep | now apply Qeq_bool_true]].
    apply list_lookup_middle. reflexivity.
Qed.

(** An index found for a product is the index of a record with that id. *)
Lemma build_index_sound (data : list RawProduct) (k : Q) (i : nat) :
  Map_get (build_index data) k = Some i ->
  exists item q, data !! i = Some item /\ product_id item = Fin q /\ (q == k)%Q.
Proof.
  apply (index_from_sound data [] []). intros ? ? [=].
Qed.


(** *** The deduction loop *)



(** *** The vend list *)

Lemma push_units_from (qty pid : Q) (n extra : nat) :
  forall (i : Z) (acc : list Q),
  (Qceiling qty - i = Z.of_nat n)%Z ->
  push_units (n + extra) i qty pid acc = acc ++ repeat pid n.
Proof.
  induction n as [|n IH]; intros i acc Hi; simpl.
  - rewrite app_nil_r. destruct extra as [|extra]; simpl; [reflexivity|].
    replace (Qgt_bool qty (inject_Z i)) with false; [reflexivity|].
    symmetry. apply Qgt_bool_false.
    replace i with (Qceiling qty) by lia. apply Qle_ceiling.
  - replace (Qgt_bool qty (inject_Z i)) with true.
    + rewrite IH by lia. rewrite <- app_assoc. reflexivity.
    + symmetry. apply Qgt_bool_true.
      apply Qle_lt_trans with (inject_Z (Qceiling qty - 1)).
      * rewrite <- Zle_Qle. lia.
      * apply Qceiling_lt.
Qed.

(** The fuel given to the loop is enough: with more of it the loop stops
    by its own test at the same list, [units qty] copies of the product. *)
Lemma push_units_units (qty pid : Q) (extra : nat) (acc : list Q) :
  push_units (units qty + extra) 0 qty pid acc = acc ++ repeat pid (units qty).
Proof.
  unfold units. destruct (Z_lt_le_dec (Qceiling qty) 0) as [Hneg|Hpos].
  - replace (Z.to_nat (Qceiling qty)) with 0%nat by lia. simpl.
    rewrite app_nil_r. destruct extra as [|extra]; simpl; [reflexivity|].
    replace (Qgt_bool qty (inject_Z 0)) with false; [reflexivity|].
    symmetry. apply Qgt_bool_false.
    apply Qle_trans with (inject_Z (Qceiling qty)); [apply Qle_ceiling|].
    rewrite <- Zle_Qle. lia.
  - apply push_units_from. lia.
Qed.

Lemma expand_flat_map (entries : list (Q * Q)) :
  expand entries = flat_map (fun '(p, q) => repeat p (units q)) entries.
Proof.
  unfold expand. rewrite <- (app_nil_l (flat_map _ _)).
  generalize (@nil Q) as acc.
  induction entries as [|[p q] rest IH]; intros acc; simpl.
  - now rewrite app_nil_r.
  - rewrite IH. pose proof (push_units_units q p 0 acc) as H.
    rewrite Nat.add_0_r in H. rewrite H, <- app_assoc. reflexivity.
Qed.


Lemma validate_not_success data ix (entries : list (Q * Q)) checkedOut sent n :
  validate data ix entries <> Some (R200_confirmed checkedOut sent n).
Proof.
  induction entries as [|[pid qty] rest IH]; simpl; [discriminate|].
  destruct (Map_get ix pid); [|discriminate].
  destruct (data !! _); [|discriminate].
  destruct (negb _ || _); [discriminate | exact IH].
Qed.

(** What a final success says about the run. *)
Lemma confirmCheckout_success_inv (w w' : World) checkedOut sent n :
  confirmCheckout w = (R200_confirmed checkedOut sent n, w') ->
  exists data data',
    file w = Some data /\ writable w = true /\
    validate data (build_index data) (cart w) = None /\
    deduct (build_index data) (cart w) data = Some data' /\
    checkedOut = cart w /\ sent = link_open (vmcClient w) /\
    n = length (expand (cart w)) /\
    w' = {| file := Some data'; writable := true; cart := [];
            cachedProducts := None; lastLoaded := 0;
            vmcClient := if sent then LinkOpen else LinkConnecting;
            log := log w ++ confirm_effects sent (expand (cart w)) |}.
Proof.
  rewrite confirmCheckout_run.
  destruct (file w) as [data|]; [|discriminate].
  destruct (validate _ _ _) as [r|] eqn:Hv.
  { intros [= -> _]. exfalso. eapply validate_not_success. exact Hv. }
  destruct (deduct _ _ _) as [data'|] eqn:Hd; [|discriminate].
  destruct (writable w); [|discriminate].
  simpl. intros [= <- <- <- <-]. exists data, data'. repeat split; auto.
Qed.






(** *** The order of clearing and submitting *)

Lemma effects_of_app (w w' : World) (es : list Effect) :
  log w' = log w ++ es -> effects_of w w' = es.
Proof. unfold effects_of. intros ->. apply drop_app_length. Qed.

Lemma confirmCheckout_effects (w : World) :
  effects_of w (snd (confirmCheckout w)) = [EReadFile] /\
    cart (snd (confirmCheckout w)) = cart w \/
  effects_of w (snd (confirmCheckout w)) =
    confirm_effects (link_open (vmcClient w)) (expand (cart w)) /\
    cart (snd (confirmCheckout w)) = [].
Proof.
  rewrite confirmCheckout_run.
  destruct (file w) as [data|]; [|left; split; [now apply effects_of_app|reflexivity]].
  destruct (validate _ _ _); [left; split; [now apply effects_of_app|reflexivity]|].
  destruct (deduct _ _ _); [|left; split; [now apply effects_of_app|reflexivity]].
  destruct (writable w); [|left; split; [now apply effects_of_app|reflexivity]].
  right. split; [now apply effects_of_app|reflexivity].
Qed.

(** C4, as the code has it. A [confirmCheckout] that clears the cart does
    so after the write of the file and before [sendToVMC] is called: no
    submission attempt precedes the clearing, and the list submitted is the
    one built from the cart before it was cleared. A [confirmCheckout] that
    does not clear the cart attempts no submission. *)
Theorem confirmCheckout_clears_before_submitting (w : World) :
  let w' := snd (confirmCheckout w) in
  let es := effects_of w w' in
  (existsb is_clear es = true ->
     cart w' = [] /\
     es = confirm_effects (link_open (vmcClient w)) (expand (cart w)) /\
     occurs_before is_write is_clear es = true /\
     occurs_before is_clear is_submission es = true /\
     occurs_before is_submission is_clear es = false) /\
  (existsb is_clear es = false ->
     cart w' = cart w /\ existsb is_submission es = false).
Proof.
  simpl. destruct (confirmCheckout_effects w) as [[-> Hc]|[-> Hc]].
  - split; [discriminate|]. intros _. split; [exact Hc | reflexivity].
  - split; [|destruct (link_open _); discriminate].
    intros _. split; [exact Hc|]. split; [reflexivity|].
    destruct (link_open _); repeat split.
Qed.

Lemma confirmCheckout_clears_before_submitting_witness :
  let w := kiosk [product 7 2 true] [(7%Q, 2%Q)] in
  cart (snd (confirmCheckout w)) = [] /\
  effects_of w (snd (confirmCheckout w)) =
    confirm_effects true (expand [(7%Q, 2%Q)]) /\
  occurs_before is_clear is_submission
    (effects_of w (snd (confirmCheckout w))) = true.
Proof.
  intros w.
  destruct (confirmCheckout_clears_before_submitting w) as [H _].
  destruct (H eq_refl) as (Hc & He & _ & Hb & _).
  repeat split; assumption.
Defined.

(** C4 as stated fails: with stock 2 of product 7 and two of it in the
    cart, the cart is cleared, and the first call of [sendToVMC] comes after
    that. *)
Lemma clear_before_submission_counterexample :
  let w := kiosk [product 7 2 true] [(7%Q, 2%Q)] in
  effects_of w (snd (confirmCheckout w)) =
    [EReadFile; EWriteFile; EInvalidateCache; ECartClear;
     ESendToVMC [7%Q; 7%Q]; ESocketSend [7%Q; 7%Q]] /\
  ~ (forall w0 : World,
       clears_follow_submission false
         (effects_of w0 (snd (confirmCheckout w0))) = true).
Proof.
  intros w. split; [reflexivity|].
  intros H. specialize (H w). discriminate H.
Qed.

(** ** The active flag *)

Lemma findIndex_fmap {A B} (f : A -> B) (pred : B -> bool) (data : list A) :
  findIndex pred (f <$> data) = findIndex (fun a => pred (f a)) data.
Proof.
  induction data as [|a data IH]; csimpl; [reflexivity|].
  destruct (pred (f a)); [reflexivity|]. now rewrite IH.
Qed.

Lemma index_from_forget (data : list RawProduct) (i : nat) m :
  index_from i (set_is_active true <$> data) m = index_from i data m.
Proof.
  revert i m. induction data as [|p data IH]; intros i m; csimpl; [reflexivity|].
  apply IH.
Qed.

Lemma validate_forget (data : list RawProduct) ix (entries : list (Q * Q)) :
  validate (set_is_active true <$> data) ix entries = validate data ix entries.
Proof.
  induction entries as [|[pid qty] rest IH]; simpl; [reflexivity|].
  destruct (Map_get ix pid) as [idx|]; [|reflexivity].
  rewrite list_lookup_fmap. destruct (data !! idx) as [item|]; simpl; [|reflexivity].
  destruct (negb _ || _); [reflexivity | exact IH].
Qed.

Lemma deduct_forget ix (entries : list (Q * Q)) (data : list RawProduct) :
  deduct ix entries (forget_flags data) =
  forget_flags <$> deduct ix entries data.
Proof.
  unfold forget_flags. revert data. induction entries as [|[pid qty] rest IH]; intros data; simpl.
  - reflexivity.
  - destruct (Map_get ix pid) as [idx|]; [|reflexivity].
    rewrite list_lookup_fmap. destruct (data !! idx) as [item|]; simpl; [|reflexivity].
    rewrite <- IH. f_equal. symmetry. apply list_fmap_alter.
    apply Forall_forall. reflexivity.
Qed.

(** Neither handler reads [is_active]: run on a state whose flags were
    overwritten, each gives the same answer and the same state up to the
    flags. *)
Lemma addToCart_forget (productId quantity : jsval) (w : World) :
  addToCart productId quantity (forget_active w) =
  (fst (addToCart productId quantity w),
   forget_active (snd (addToCart productId quantity w))).
Proof.
  unfold addToCart. destruct (invalid_request _ _); [reflexivity|].
  destruct productId as [| |?|[pid| | |]|?|?|]; try reflexivity.
  destruct quantity as [| |?|[qty| | |]|?|?|]; try reflexivity.
  unfold forget_active. run_handler.
  destruct (file w) as [data|]; [|reflexivity].
  cbn [fmap option_fmap option_map]. unfold forget_flags.
  rewrite findIndex_fmap.
  cbn [set_is_active product_id].
  destruct (findIndex _ data) as [idx|]; [|reflexivity].
  rewrite list_lookup_fmap. destruct (data !! idx) as [p|]; simpl; [|reflexivity].
  destruct (shelf_life_count p); try reflexivity.
  destruct (Qgt_bool _ _); reflexivity.
Qed.

Lemma confirmCheckout_forget (w : World) :
  confirmCheckout (forget_active w) =
  (fst (confirmCheckout w), forget_active (snd (confirmCheckout w))).
Proof.
  rewrite !confirmCheckout_run. unfold forget_active at 1, logged; simpl.
  destruct (file w) as [data|]; [|reflexivity].
  cbn [fmap option_fmap option_map].
  unfold build_index, forget_flags.
  rewrite !index_from_forget, validate_forget.
  destruct (validate _ _ _); [reflexivity|].
  fold (forget_flags data). rewrite deduct_forget. destruct (deduct _ _ _); simpl; [|reflexivity].
  destruct (writable w); reflexivity.
Qed.

(** C5, as the code has it. The backend never reads the active flag: on
    two states that differ only in [is_active] flags, [addToCart] and
    [confirmCheckout] give the same answers and leave states that again
    differ only in those flags. What keeps an inactive product from being
    bought is the kiosk UI: for a product whose flag is false its add
    handler sends no request, whatever the stock. *)
Theorem backend_ignores_active_flag (w1 w2 : World) (productId quantity : jsval) :
  forget_active w1 = forget_active w2 ->
  fst (addToCart productId quantity w1) = fst (addToCart productId quantity w2) /\
  forget_active (snd (addToCart productId quantity w1)) =
    forget_active (snd (addToCart productId quantity w2)) /\
  fst (confirmCheckout w1) = fst (confirmCheckout w2) /\
  forget_active (snd (confirmCheckout w1)) =
    forget_active (snd (confirmCheckout w2)) /\
  (forall adding isVending stock cartQty pid,
     KioskUI.handleAddToCart adding isVending
       (KioskUI.isAvailable false stock) stock cartQty pid = None).
Proof.
  intros H.
  pose proof (addToCart_forget productId quantity w1) as A1.
  pose proof (addToCart_forget productId quantity w2) as A2.
  pose proof (confirmCheckout_forget w1) as C1.
  pose proof (confirmCheckout_forget w2) as C2.
  rewrite H in A1, C1. rewrite A2 in A1. rewrite C2 in C1.
  pose proof (f_equal fst A1) as A1r. pose proof (f_equal snd A1) as A1w.
  pose proof (f_equal fst C1) as C1r. pose proof (f_equal snd C1) as C1w.
  simpl in A1r, A1w, C1r, C1w.
  do 4 (split; [congruence|]).
  intros adding isVending stock cartQty pid.
  unfold KioskUI.handleAddToCart, KioskUI.isAvailable. simpl.
  now rewrite !orb_true_r.
Qed.

Lemma backend_ignores_active_flag_witness :
  fst (addToCart (num 7) (num 1) (kiosk [product 7 2 false] [])) =
  fst (addToCart (num 7) (num 1) (kiosk [product 7 2 true] [])) /\
  fst (confirmCheckout (kiosk [product 7 2 false] [(7%Q, 1%Q)])) =
  fst (confirmCheckout (kiosk [product 7 2 true] [(7%Q, 1%Q)])).
Proof.
  split.
  - apply (backend_ignores_active_flag (kiosk [product 7 2 false] [])
             (kiosk [product 7 2 true] []) (num 7) (num 1)). reflexivity.
  - apply (backend_ignores_active_flag (kiosk [product 7 2 false] [(7%Q, 1%Q)])
             (kiosk [product 7 2 true] [(7%Q, 1%Q)]) (num 7) (num 1)). reflexivity.
Defined.

(** C5 as stated fails: product 7 is inactive and has two units; one unit
    is added to the cart, and confirming that cart takes it from the
    stock. *)
Lemma inactive_product_counterexample :
  addToCart (num 7) (num 1) (kiosk [product 7 2 false] []) =
    (R200_cart [(7%Q, 0 + 1)%Q],
     {| file := Some [product 7 2 false]; writable := true;
        cart := [(7%Q, 0 + 1)%Q]; cachedProducts := None; lastLoaded := 0;
        vmcClient := LinkOpen; log := [EReadFile; ECartSet 7 (0 + 1)] |}) /\
  fst (confirmCheckout (kiosk [product 7 2 false] [(7%Q, 1%Q)])) =
    R200_confirmed [(7%Q, 1%Q)] true 1 /\
  file (snd (confirmCheckout (kiosk [product 7 2 false] [(7%Q, 1%Q)]))) =
    Some [set_shelf_life_count (Fin (2 - 1)) (product 7 2 false)].
Proof. repeat split; reflexivity. Qed.

(** ** prepareCheckout *)

Lemma loadProducts_run (now : Z) (w : World) :
  loadProducts now w = (catalog_at now w, snd (loadProducts now w)) /\
  cart (snd (loadProducts now w)) = cart w /\
  file (snd (loadProducts now w)) = file w /\
  writable (snd (loadProducts now w)) = writable w /\
  vmcClient (snd (loadProducts now w)) = vmcClient w.
Proof.
  unfold catalog_at. split; [now destruct (loadProducts now w)|].
  unfold loadProducts. run_handler.
  destruct (cachedProducts w) as [ps|]; simpl.
  - destruct (now - lastLoaded w <? CACHE_TTL_MS)%Z; simpl; [auto|].
    destruct (file w); simpl; auto.
  - destruct (file w); simpl; auto.
Qed.

Lemma prepareCheckout_run (now_load now_id : Z) (w : World) :
  prepareCheckout now_load now_id w =
  (match catalog_at now_load w with
   | None => R500
   | Some products =>
       let items := map (order_line products) (cart w) in
       R200_order ("order_" ++ decimal now_id)%string items
         (fold_left (fun s it => (s + line_amount it)%Q) items 0%Q)
   end,
   snd (loadProducts now_load w)).
Proof.
  destruct (loadProducts_run now_load w) as (Hrun & Hc & _).
  unfold prepareCheckout, bind. rewrite Hrun.
  destruct (catalog_at now_load w); [|reflexivity].
  unfold cart_items, ret. now rewrite Hc.
Qed.

(** With a coherent cache the catalog served does not depend on the clock,
    and serving it leaves the cache coherent. *)
Lemma catalog_coherent (now : Z) (w : World) :
  cache_coherent w ->
  catalog_at now w = map toJsonProduct <$> file w /\
  cache_coherent (snd (loadProducts now w)).
Proof.
  intros Hc. unfold catalog_at, loadProducts. run_handler.
  destruct (cachedProducts w) as [ps|] eqn:E; simpl.
  - destruct (Hc ps E) as (data & Hf & ->).
    destruct (now - lastLoaded w <? CACHE_TTL_MS)%Z; simpl.
    + rewrite Hf. split; [reflexivity | exact Hc].
    + rewrite Hf. simpl. split; [reflexivity|]. intros ps [= <-]. eauto.
  - destruct (file w) as [data|] eqn:Hf; simpl.
    + split; [reflexivity|]. intros ps [= <-]. eauto.
    + split; [reflexivity|]. intros ps Hps. simpl in Hps. congruence.
Qed.

(** C7. [prepareCheckout] changes neither the cart nor the file; and a
    second call, made on the state the first one left, answers with the same
    line items and the same total whenever the catalog served to it is the
    one served to the first call, which is the case at any two clock
    readings when the cache is coherent with the file. *)
Theorem prepareCheckout_pure_and_repeatable (w : World) (t1 i1 t2 i2 : Z) :
  let r1 := fst (prepareCheckout t1 i1 w) in
  let w1 := snd (prepareCheckout t1 i1 w) in
  let r2 := fst (prepareCheckout t2 i2 w1) in
  let w2 := snd (prepareCheckout t2 i2 w1) in
  (cart w1 = cart w /\ file w1 = file w) /\
  (cart w2 = cart w /\ file w2 = file w) /\
  (catalog_at t1 w = catalog_at t2 w1 ->
   order_lines r1 = order_lines r2 /\ order_total r1 = order_total r2) /\
  (cache_coherent w -> catalog_at t1 w = catalog_at t2 w1).
Proof.
  simpl. rewrite !prepareCheckout_run. simpl.
  destruct (loadProducts_run t1 w) as (_ & Hc1 & Hf1 & _).
  destruct (loadProducts_run t2 (snd (loadProducts t1 w))) as (_ & Hc2 & Hf2 & _).
  split; [auto|]. split; [split; congruence|]. split.
  - intros <-. rewrite Hc1. destruct (catalog_at t1 w); simpl; auto.
  - intros Hcoh. destruct (catalog_coherent t1 w Hcoh) as [-> Hcoh1].
    destruct (catalog_coherent t2 _ Hcoh1) as [-> _]. now rewrite Hf1.
Qed.

Lemma prepareCheckout_pure_and_repeatable_witness :
  let w := kiosk [product 7 2 true; product 9 5 true] [(7%Q, 2%Q); (9%Q, 1%Q)] in
  let r1 := fst (prepareCheckout 1700000000000 1700000000003 w) in
  let w1 := snd (prepareCheckout 1700000000000 1700000000003 w) in
  let r2 := fst (prepareCheckout 1700000090000 1700000090002 w1) in
  order_lines r1 = order_lines r2 /\ order_total r1 = order_total r2 /\
  order_total r1 = Some (0 + 10 * 2 + 10 * 1)%Q /\
  order_id r1 <> order_id r2.
Proof.
  intros w r1 w1 r2.
  destruct (prepareCheckout_pure_and_repeatable w 1700000000000 1700000000003
              1700000090000 1700000090002) as (_ & _ & Hsame & Hcat).
  destruct Hsame as [Hl Ht].
  - apply Hcat. intros ps Hps. discriminate Hps.
  - split; [exact Hl|]. split; [exact Ht|]. split; [reflexivity|].
    vm_compute. discriminate.
Defined.

(** *** What holds of every state the backend reaches *)

Lemma Map_set_In {V} (m : list (Q * V)) (k k' : Q) (v v' : V) :
  In (k', v') (Map_set m k v) -> (exists v0, In (k', v0) m) \/ k' = k.
Proof.
  induction m as [|[k0 v0] m IH]; simpl.
  - intros [[= <- <-]|[]]. now right.
  - destruct (Qeq_bool k0 k); simpl.
    + intros [[= <- <-]|Hin]; left; eauto.
    + intros [[= <- <-]|Hin]; [left; eauto|].
      destruct (IH Hin) as [[v1 H1]|Hk]; [left; eauto | now right].
Qed.

Lemma index_from_keeps (i : nat) (rest : list RawProduct) m (k : Q) :
  is_Some (Map_get m k) -> is_Some (Map_get (index_from i rest m) k).
Proof.
  revert i m. induction rest as [|p rest IH]; intros i m Hm; simpl; [exact Hm|].
  apply IH. destruct (product_id p); try exact Hm.
  rewrite Map_get_set. destruct (Qeq_bool q k); [eauto | exact Hm].
Qed.

Lemma index_from_adds (i : nat) (rest : list RawProduct) m (k q : Q) item :
  In item rest -> product_id item = Fin q -> (q == k)%Q ->
  is_Some (Map_get (index_from i rest m) k).
Proof.
  revert i m. induction rest as [|p rest IH]; intros i m [].
  - subst p. intros Hq Hk. simpl. apply index_from_keeps. rewrite Hq, Map_get_set.
    apply Qeq_bool_true in Hk. rewrite Hk. eauto.
  - intros Hq Hk. simpl. now apply IH.
Qed.

(** A product that [addToCart] finds in the file has its record for
    [confirmCheckout] too. *)
Lemma found_has_record (data : list RawProduct) (pid : Q) (idx : nat) :
  findIndex (fun p => strict_eq (product_id p) (Fin pid)) data = Some idx ->
  exists i item, confirm_record data pid = Some (i, item).
Proof.
  intros Hf. destruct (findIndex_Some _ _ _ Hf) as (p & Hp & Heq).
  destruct (product_id p) as [q| | |] eqn:Eq; try discriminate.
  simpl in Heq. apply Qeq_bool_true in Heq.
  assert (Hin : In p data).
  { apply list_elem_of_In. eapply list_elem_of_lookup_2. exact Hp. }
  destruct (index_from_adds 0 data [] pid q p Hin Eq Heq) as [i Hi].
  destruct (build_index_sound _ _ _ Hi) as (item & _ & Hit & _).
  exists i, item. apply confirm_record_Some. auto.
Qed.

Lemma addToCart_fields (productId quantity : jsval) (w : World) :
  let w' := snd (addToCart productId quantity w) in
  file w' = file w /\ cachedProducts w' = cachedProducts w /\
  (cart w' = cart w \/
   exists pid qty data idx,
     file w = Some data /\
     findIndex (fun p => strict_eq (product_id p) (Fin pid)) data = Some idx /\
     cart w' = Map_set (cart w) pid qty).
Proof.
  unfold addToCart. destruct (invalid_request _ _); [simpl; auto|].
  destruct productId as [| |?|[pid| | |]|?|?|]; simpl; auto.
  destruct quantity as [| |?|[qty| | |]|?|?|]; simpl; auto.
  run_handler.
  destruct (file w) as [data|]; simpl; auto.
  destruct (findIndex _ data) as [idx|] eqn:Ef; simpl; auto.
  destruct (data !! idx) as [p|]; simpl; auto.
  destruct (shelf_life_count p); simpl; auto.
  destruct (Qgt_bool _ _); simpl; auto.
  do 2 (split; [reflexivity|]). right. eauto 8.
Qed.

Lemma index_from_restock (f : RawProduct -> jsnum) (data : list RawProduct) i m :
  index_from i (restock f data) m = index_from i data m.
Proof.
  unfold restock. revert i m.
  induction data as [|p data IH]; intros i m; csimpl; [reflexivity|]. apply IH.
Qed.

Lemma cart_in_file_restock (f : RawProduct -> jsnum) data (c : list (Q * Q)) :
  cart_in_file data c -> cart_in_file (restock f data) c.
Proof.
  intros H pid qty Hin. destruct (H pid qty Hin) as (idx & item & Hr).
  apply confirm_record_Some in Hr. destruct Hr as [Hi Hd].
  exists idx, (set_shelf_life_count (f item) item). apply confirm_record_Some.
  unfold build_index. rewrite index_from_restock. split; [exact Hi|].
  unfold restock. now rewrite list_lookup_fmap, Hd.
Qed.

Lemma sound_served (rq : Request) (w : World) :
  sound w -> sound (snd (router rq w)).
Proof.
  intros (Hwf & Hcoh & Hback).
  destruct rq as [|productId quantity| |now_load now_id|]; simpl.
  - repeat split; assumption.
  - destruct (addToCart_fields productId quantity w) as (Hf & Hc & Hcart).
    unfold sound, cache_coherent, cart_backed. rewrite Hf, Hc.
    destruct Hcart as [->|(pid & qty & data & idx & Hd & Hfound & ->)];
      [repeat split; assumption|].
    split; [now apply Map_set_wf|]. split; [exact Hcoh|].
    unfold cart_backed in Hback. rewrite Hd in Hback |- *.
    intros p q Hin. destruct (Map_set_In _ _ _ _ _ Hin) as [[v0 H0]| ->].
    + exact (Hback p v0 H0).
    + exact (found_has_record _ _ _ Hfound).
  - unfold sound, cache_coherent, cart_backed; simpl.
    split; [exact I|]. split; [exact Hcoh|].
    destruct (file w); [intros ? ? []|reflexivity].
  - rewrite prepareCheckout_run. simpl.
    destruct (loadProducts_run now_load w) as (_ & Hc & Hf & _).
    unfold sound, cart_backed. rewrite Hc, Hf.
    split; [exact Hwf|]. split; [now apply catalog_coherent | exact Hback].
  - assert (Hlog : sound (logged [EReadFile] w)) by (repeat split; assumption).
    rewrite confirmCheckout_run.
    destruct (file w) as [data|]; [|exact Hlog].
    destruct (validate _ _ _); [exact Hlog|].
    destruct (deduct _ _ _); [|exact Hlog].
    destruct (writable w); [|exact Hlog]. simpl.
    split; [exact I|]. split; [intros ps [=] | intros ? ? []].
Qed.

Lemma sound_occur (o : Occurrence) (w : World) : sound w -> sound (occur o w).
Proof.
  destruct o as [rq|f]; [apply sound_served|].
  intros (Hwf & Hcoh & Hback). split; [exact Hwf|]. split.
  - intros ps Hps. destruct (Hcoh ps Hps) as (data & Hf & ->). simpl.
    rewrite Hf. exists (restock f data). split; [reflexivity|].
    unfold restock. rewrite <- !list_fmap_compose. reflexivity.
  - unfold cart_backed in *. simpl. destruct (file w); simpl; [|exact Hback].
    now apply cart_in_file_restock.
Qed.

(** From process start on, through requests and stock edits, the cart is
    a well-formed map of products of the file, and the cache is coherent
    with the file. *)
Lemma sound_history (os : list Occurrence) (data : option (list RawProduct))
    (can_write : bool) :
  sound (history os (boot data can_write)).
Proof.
  assert (H0 : sound (boot data can_write)).
  { split; [exact I|]. split; [intros ps [=]|].
    unfold cart_backed; simpl. destruct data; [intros ? ? []|reflexivity]. }
  revert H0. generalize (boot data can_write) as w.
  induction os as [|o os IH]; intros w Hw; simpl; [exact Hw|].
  apply IH. now apply sound_occur.
Qed.

(** *** The order id *)

Lemma to_int_proper (z : Z) :
  Z.to_int z <> Decimal.Pos Decimal.Nil /\ Z.to_int z <> Decimal.Neg Decimal.Nil.
Proof.
  destruct z as [|p|p]; simpl; split; try discriminate;
    intros [= H]; revert H; apply DecimalPos.Unsigned.to_uint_nonnil.
Qed.

Lemma decimal_inj (a b : Z) : decimal a = decimal b -> a = b.
Proof.
  unfold decimal. intros H. apply DecimalZ.to_int_inj.
  destruct (to_int_proper a) as [Ha1 Ha2]. destruct (to_int_proper b) as [Hb1 Hb2].
  pose proof (NilZero.isi _ Ha1 Ha2) as Ia.
  pose proof (NilZero.isi _ Hb1 Hb2) as Ib.
  rewrite H in Ia. rewrite Ia in Ib. now injection Ib.
Qed.

(** C9, as the code has it. The order id of a prepared order is ["order_"]
    followed by the clock reading, in decimal, made for it; so two prepared
    orders carry the same id exactly when their clock readings are equal.
    Nothing else enters the id. *)
Theorem prepareCheckout_orderId (w1 w2 : World) (t1 i1 t2 i2 : Z)
    (id1 id2 : string) :
  order_id (fst (prepareCheckout t1 i1 w1)) = Some id1 ->
  order_id (fst (prepareCheckout t2 i2 w2)) = Some id2 ->
  id1 = ("order_" ++ decimal i1)%string /\
  id2 = ("order_" ++ decimal i2)%string /\
  (id1 = id2 <-> i1 = i2).
Proof.
  rewrite !prepareCheckout_run. simpl.
  destruct (catalog_at t1 w1); [|discriminate].
  destruct (catalog_at t2 w2); [|discriminate].
  simpl. intros [= <-] [= <-]. repeat split.
  - intros [= H]. now apply decimal_inj.
  - now intros ->.
Qed.

Lemma prepareCheckout_orderId_witness :
  let w := kiosk [product 7 2 true] [(7%Q, 1%Q)] in
  order_id (fst (prepareCheckout 1700000000000 1700000000000 w)) =
    Some "order_1700000000000" /\
  order_id (fst (prepareCheckout 1700000000001 1700000000001 w)) =
    Some "order_1700000000001" /\
  "order_1700000000000" <> "order_1700000000001".
Proof.
  intros w.
  assert (H1 : order_id (fst (prepareCheckout 1700000000000 1700000000000 w)) =
               Some "order_1700000000000") by (vm_compute; reflexivity).
  assert (H2 : order_id (fst (prepareCheckout 1700000000001 1700000000001 w)) =
               Some "order_1700000000001") by (vm_compute; reflexivity).
  destruct (prepareCheckout_orderId w w _ _ _ _ _ _ H1 H2) as (_ & _ & Hiff).
  split; [exact H1|]. split; [exact H2|].
  intros E. apply Hiff in E. discriminate E.
Defined.

(** C9 as stated fails: two calls in a row that read the same millisecond
    on the clock answer with the same order id. *)
Lemma orderId_collision_counterexample :
  let w := kiosk [product 7 2 true] [(7%Q, 1%Q)] in
  let first := prepareCheckout 1700000000000 1700000000000 w in
  let second := prepareCheckout 1700000000000 1700000000000 (snd first) in
  order_id (fst first) = Some "order_1700000000000" /\
  order_id (fst second) = Some "order_1700000000000".
Proof. vm_compute. split; reflexivity. Qed.

(** ** The vend controller *)

Module VmcFacts.
Import VmcServer.

Lemma filter_filter_comm {A} (p q : A -> bool) (l : list A) :
  List.filter p (List.filter q l) = List.filter q (List.filter p l).
Proof.
  induction l as [|a l IH]; simpl; [reflexivity|].
  destruct (q a) eqn:Eq, (p a) eqn:Ep; simpl; rewrite ?Eq, ?Ep, IH; reflexivity.
Qed.

Lemma timeouts_clear_timer (h : nat) (ts : list (nat * TimerKind)) :
  List.filter is_timeout (clear_timer h ts) =
  clear_timer h (List.filter is_timeout ts).
Proof. unfold clear_timer. apply filter_filter_comm. Qed.

Lemma clear_timer_absent (h : nat) (ts : list (nat * TimerKind)) :
  (forall h' k, In (h', k) ts -> h' <> h) -> clear_timer h ts = ts.
Proof.
  induction ts as [|[h' k] ts IH]; simpl; [reflexivity|]. intros H.
  replace (h' =? h)%nat with false.
  - simpl. f_equal. apply IH. intros; eapply H; right; eauto.
  - symmetry. apply Nat.eqb_neq. apply (H h' k). now left.
Qed.

Lemma timeouts_clear_interval (s : Server) (hI : nat) :
  invariant s -> statusInterval (vendingState s) = Some hI ->
  List.filter is_timeout (clear_timer hI (timers s)) =
  List.filter is_timeout (timers s).
Proof.
  intros [_ Hi] E. rewrite timeouts_clear_timer. apply clear_timer_absent.
  intros h' k Hin. apply filter_In in Hin. destruct Hin as [Hin Hk].
  destruct k; [discriminate|]. exact (Hi hI E h' Hin).
Qed.

Lemma In_clear_timer (h h' : nat) k (ts : list (nat * TimerKind)) :
  In (h', k) (clear_timer h ts) -> In (h', k) ts.
Proof. unfold clear_timer. intros H. apply filter_In in H. tauto. Qed.

Lemma invariant_initial : invariant initial.
Proof. split; [reflexivity | intros ? [=]]. Qed.

Lemma invariant_start_cycle (now : Z) (items : list jsval) (s : Server) :
  invariant s -> status (vendingState s) = idle ->
  invariant (start_cycle now items s).
Proof.
  intros [Hs _] Hidle. rewrite Hidle in Hs. unfold invariant, start_cycle; simpl.
  split.
  - exists (S (next_handle s)). split; [reflexivity|].
    rewrite List.filter_app, Hs. reflexivity.
  - intros hI [= <-] h Hin. apply in_app_or in Hin. destruct Hin as [Hin|Hin].
    + exfalso. assert (H : In (h, Timeout) (List.filter is_timeout (timers s)))
        by (apply filter_In; auto).
      rewrite Hs in H. exact H.
    + simpl in Hin. destruct Hin as [[=]|[[= <-]|[]]]. lia.
Qed.

Lemma invariant_drop_interval (s : Server) (hI : nat) :
  invariant s -> statusInterval (vendingState s) = Some hI ->
  invariant {| vendingState :=
                 {| status := status (vendingState s);
                    currentItems := currentItems (vendingState s);
                    startTime := startTime (vendingState s);
                    timeout := timeout (vendingState s);
                    statusInterval := None |};
               timers := clear_timer hI (timers s);
               next_handle := next_handle s |}.
Proof.
  intros Hinv E. pose proof (timeouts_clear_interval s hI Hinv E) as Hc.
  destruct Hinv as [Hs _]. unfold invariant; simpl. rewrite Hc.
  split; [exact Hs | intros ? [=]].
Qed.

Lemma invariant_tick (now : Z) (s : Server) :
  invariant s -> invariant (snd (tick now s)).
Proof.
  intros Hinv. unfold tick.
  destruct (status (vendingState s)) eqn:Es.
  - destruct (statusInterval (vendingState s)) as [hI|] eqn:E; simpl; [|exact Hinv].
    rewrite <- Es. now apply invariant_drop_interval.
  - destruct (startTime_truthy _); simpl; [exact Hinv|].
    destruct (statusInterval (vendingState s)) as [hI|] eqn:E; simpl; [|exact Hinv].
    rewrite <- Es. now apply invariant_drop_interval.
Qed.

Lemma invariant_fire_timeout (s : Server) (h : nat) :
  invariant s -> In (h, Timeout) (timers s) ->
  invariant (snd (complete {| vendingState := vendingState s;
                              timers := clear_timer h (timers s);
                              next_handle := next_handle s |})).
Proof.
  intros [Hs _] Hin. unfold invariant, complete; simpl.
  split; [|intros ? [=]].
  assert (Hnone : List.filter is_timeout (clear_timer h (timers s)) = []).
  { rewrite timeouts_clear_timer.
    assert (Hin' : In (h, Timeout) (List.filter is_timeout (timers s)))
      by (apply filter_In; auto).
    destruct (status (vendingState s)).
    - now rewrite Hs.
    - destruct Hs as (hT & _ & Hs). rewrite Hs in Hin' |- *.
      destruct Hin' as [[= ->]|[]]. simpl. now rewrite Nat.eqb_refl. }
  destruct (statusInterval (vendingState s)); [|exact Hnone].
  rewrite timeouts_clear_timer, Hnone. reflexivity.
Qed.

Lemma invariant_step (e : Event) (s : Server) :
  invariant s -> invariant (snd (step e s)).
Proof.
  intros Hinv. destruct e as [|now f|now|now items|now h]; simpl.
  - exact Hinv.
  - destruct f as [|type items]; simpl; [exact Hinv|].
    destruct (is_type "vend" type).
    + destruct (nonempty_array items); [|exact Hinv].
      destruct (status (vendingState s)) eqn:Es; simpl; [|exact Hinv].
      now apply invariant_start_cycle.
    + destruct (is_type "status" type).
      * destruct (status (vendingState s)); exact Hinv.
      * destruct (is_type "health" type); exact Hinv.
  - unfold get_status. destruct (status (vendingState s)); [exact Hinv|].
    destruct (startTime_truthy _); exact Hinv.
  - unfold post_vend. destruct (nonempty_array items); [|exact Hinv].
    destruct (status (vendingState s)) eqn:Es; simpl; [|exact Hinv].
    now apply invariant_start_cycle.
  - destruct (List.find _ (timers s)) as [[h' k]|] eqn:Ef; [|exact Hinv].
    destruct k; [now apply invariant_tick|].
    apply find_some in Ef. destruct Ef as [Hin Hh]. simpl in Hh.
    apply Nat.eqb_eq in Hh. subst h'. now apply invariant_fire_timeout.
Qed.

Lemma invariant_run (es : list Event) (s : Server) :
  invariant s -> invariant (run es s).
Proof.
  revert s. induction es as [|e es IH]; intros s Hinv; simpl; [exact Hinv|].
  apply IH. now apply invariant_step.
Qed.

(** One completion timer at most is pending, and one exactly while the
    controller is vending. *)
Lemma invariant_active_cycles (s : Server) :
  invariant s ->
  active_cycles s = match status (vendingState s) with
                    | idle => 0%nat
                    | vending => 1%nat
                    end.
Proof.
  intros [Hs _]. unfold active_cycles.
  destruct (status (vendingState s)); [now rewrite Hs|].
  destruct Hs as (h & _ & ->). reflexivity.
Qed.

(** A vend command changes the state only when it is taken from [idle]. *)
Lemma vend_changes_from_idle_only (now : Z) (type items : jsval) (s : Server) :
  (snd (on_message now (Data type items) s) <> s ->
   status (vendingState s) = idle) /\
  (snd (post_vend now items s) <> s -> status (vendingState s) = idle).
Proof.
  unfold on_message, post_vend.
  destruct (is_type "vend" type), (nonempty_array items),
    (status (vendingState s)), (is_type "status" type),
    (is_type "health" type); simpl; split; intros H; try reflexivity;
    exfalso; now apply H.
Qed.

(** C6, as the code has it. While the controller is vending, a vend
    command whose [items] is a non-empty array is answered Busy with the
    items in flight, over the socket and over HTTP alike; one whose [items]
    is anything else is answered as invalid, the test of the items coming
    first. Either way the state is left as it was. A vend command changes
    the state only from [idle], and however the controller is driven from
    its start, at most one cycle is in progress. *)
Theorem vend_while_vending (s : Server) (now : Z) (type items : jsval) :
  status (vendingState s) = vending ->
  is_type "vend" type = true ->
  (forall l, nonempty_array items = Some l ->
     on_message now (Data type items) s =
       ([Send (vend_response_busy (currentItems (vendingState s)))], s) /\
     post_vend now items s =
       ([Respond (H409_busy (currentItems (vendingState s)))], s)) /\
  (nonempty_array items = None ->
     on_message now (Data type items) s = ([Send vend_response_invalid], s) /\
     post_vend now items s = ([Respond H400_invalid_items], s)) /\
  (forall s0 now0 type0 items0,
     (snd (on_message now0 (Data type0 items0) s0) <> s0 ->
      status (vendingState s0) = idle) /\
     (snd (post_vend now0 items0 s0) <> s0 ->
      status (vendingState s0) = idle)) /\
  (forall es, (active_cycles (run es initial) <= 1)%nat).
Proof.
  intros Hv Ht. unfold on_message, post_vend. rewrite Ht, Hv.
  split; [intros l ->; auto|]. split; [intros ->; auto|].
  split; [intros; apply vend_changes_from_idle_only|].
  intros es. rewrite (invariant_active_cycles _ (invariant_run es _ invariant_initial)).
  destruct (status (vendingState (run es initial))); lia.
Qed.

(** The scenario of the specification: [3,3,5] accepted from idle, then a
    request for [1] during the cycle. *)
Lemma vend_while_vending_witness :
  let s := run [Message_in 1700000000000
                  (Data (JStr "vend") (JArr [item 3; item 3; item 5]))] initial in
  on_message 1700000001000 (Data (JStr "vend") (JArr [item 1])) s =
    ([Send (vend_response_busy [item 3; item 3; item 5])], s) /\
  post_vend 1700000001000 (JArr [item 1]) s =
    ([Respond (H409_busy [item 3; item 3; item 5])], s).
Proof.
  intros s.
  destruct (vend_while_vending s 1700000001000 (JStr "vend") (JArr [item 1]))
    as (Hbusy & _); [reflexivity | reflexivity |].
  exact (Hbusy [item 1] eq_refl).
Defined.

(** C6 as stated fails: during the cycle for [3,3,5], a vend command with
    an empty list of items is not answered Busy with the items in flight
    but as an invalid request. *)
Lemma vend_invalid_while_vending_counterexample :
  let s := run [Message_in 1700000000000
                  (Data (JStr "vend") (JArr [item 3; item 3; item 5]))] initial in
  status (vendingState s) = vending /\
  currentItems (vendingState s) = [item 3; item 3; item 5] /\
  on_message 1700000001000 (Data (JStr "vend") (JArr [])) s =
    ([Send vend_response_invalid], s) /\
  post_vend 1700000001000 (JArr []) s = ([Respond H400_invalid_items], s).
Proof. repeat split; reflexivity. Qed.

(** The cycle of the scenario runs to its end: when the completion timer
    fires, the items are broadcast as vended and the controller is idle
    again, with no timer left. *)
Example vend_cycle_scenario :
  let s := run [Message_in 1700000000000
                  (Data (JStr "vend") (JArr [item 3; item 3; item 5]))] initial in
  step (Fire 1700000005000 1) s =
    ([Broadcast (vend_complete [item 3; item 3; item 5])],
     {| vendingState := vendingState initial; timers := []; next_handle := 2 |}).
Proof. reflexivity. Qed.

End VmcFacts.

(** * Further properties of the code *)

(** ** addToCart: its answers, one by one *)

Lemma findIndex_None {A} (pred : A -> bool) (data : list A) :
  findIndex pred data = None <-> forall p, In p data -> pred p = false.
Proof.
  induction data as [|a data IH]; simpl.
  - split; [intros _ ? [] | reflexivity].
  - destruct (pred a) eqn:E.
    + split; [discriminate|]. intros H. rewrite (H a) in E; [discriminate | now left].
    + destruct (findIndex pred data) as [i|]; simpl.
      * split; [discriminate|]. intros H.
        assert (Hn : Some i = None)
          by (apply IH; intros p Hp; apply H; now right).
        discriminate Hn.
      * split; [|reflexivity]. intros _ p [<-|Hp]; [exact E|].
        now apply IH.
Qed.

Lemma findIndex_first {A} (pred : A -> bool) (data : list A) (idx : nat) :
  findIndex pred data = Some idx ->
  forall j p, (j < idx)%nat -> data !! j = Some p -> pred p = false.
Proof.
  revert idx. induction data as [|a data IH]; simpl; intros idx; [discriminate|].
  destruct (pred a) eqn:E.
  - intros [= <-] j p Hj. lia.
  - destruct (findIndex pred data) as [i|]; simpl; [|discriminate].
    intros [= <-] [|j] p Hj; simpl.
    + now intros [= <-].
    + apply (IH i eq_refl). lia.
Qed.

(** Every way [addToCart] can go, with the state it leaves. *)
Lemma addToCart_cases (productId quantity : jsval) (w : World) :
  (invalid_request productId quantity = true /\
   addToCart productId quantity w = (R400_invalid_request, w)) \/
  exists pid qty,
    productId = JNum (Fin pid) /\ quantity = JNum (Fin qty) /\
    ~ (pid == 0)%Q /\ (0 < qty)%Q /\
    ((file w = None /\
      addToCart productId quantity w = (R500, logged [EReadFile] w)) \/
     exists data, file w = Some data /\
       ((findIndex (fun p => strict_eq (product_id p) (Fin pid)) data = None /\
         addToCart productId quantity w =
           (R404_not_found pid, logged [EReadFile] w)) \/
        (exists n, live_stock data pid = Some n /\ isFinite n = false /\
           addToCart productId quantity w =
             (R400_invalid_stock pid, logged [EReadFile] w)) \/
        (exists available, live_stock data pid = Some (Fin available) /\
           let inCart := default 0%Q (Map_get (cart w) pid) in
           ((available < inCart + qty)%Q /\
            addToCart productId quantity w =
              (R400_insufficient_stock pid available inCart qty,
               logged [EReadFile] w)) \/
           ((inCart + qty <= available)%Q /\
            addToCart productId quantity w =
              (R200_cart (Map_set (cart w) pid (inCart + qty)%Q),
               {| file := file w; writable := writable w;
                  cart := Map_set (cart w) pid (inCart + qty)%Q;
                  cachedProducts := cachedProducts w;
                  lastLoaded := lastLoaded w; vmcClient := vmcClient w;
                  log := log w ++ [EReadFile; ECartSet pid (inCart + qty)%Q] |}))))).
Proof.
  destruct (invalid_request productId quantity) eqn:Hg.
  { left. split; [reflexivity | now apply addToCart_invalid]. }
  right. apply invalid_request_false in Hg.
  destruct Hg as (pid & qty & -> & -> & Hp & Hq). exists pid, qty.
  do 4 (split; [easy|]).
  destruct (file w) as [data|] eqn:Hf.
  2:{ left. split; [reflexivity|]. unfold addToCart.
      rewrite (valid_request _ _ Hp Hq). run_handler. unfold logged.
      now rewrite Hf. }
  right. exists data. split; [reflexivity|].
  destruct (live_stock data pid) as [[available| | |]|] eqn:Hs.
  - right. right. exists available. split; [reflexivity|]. simpl.
    rewrite (addToCart_run w data pid qty available Hp Hq Hf Hs).
    unfold logged.
    destruct (Qgt_bool _ available) eqn:E.
    + left. apply Qgt_bool_true in E. split; [exact E | reflexivity].
    + right. apply Qgt_bool_false in E. split; [exact E|].
      rewrite <- app_assoc, Hf. reflexivity.
  - right. left. exists NaN. repeat split.
    unfold addToCart. rewrite (valid_request _ _ Hp Hq). run_handler.
    unfold live_stock in Hs. unfold logged. rewrite Hf.
    destruct (findIndex _ data) as [idx|]; simpl in Hs; [|discriminate].
    destruct (data !! idx) as [p|]; simpl in Hs; [|discriminate].
    injection Hs as ->. reflexivity.
  - right. left. exists PosInf. repeat split.
    unfold addToCart. rewrite (valid_request _ _ Hp Hq). run_handler.
    unfold live_stock in Hs. unfold logged. rewrite Hf.
    destruct (findIndex _ data) as [idx|]; simpl in Hs; [|discriminate].
    destruct (data !! idx) as [p|]; simpl in Hs; [|discriminate].
    injection Hs as ->. reflexivity.
  - right. left. exists NegInf. repeat split.
    unfold addToCart. rewrite (valid_request _ _ Hp Hq). run_handler.
    unfold live_stock in Hs. unfold logged. rewrite Hf.
    destruct (findIndex _ data) as [idx|]; simpl in Hs; [|discriminate].
    destruct (data !! idx) as [p|]; simpl in Hs; [|discriminate].
    injection Hs as ->. reflexivity.
  - left. unfold live_stock in Hs.
    destruct (findIndex _ data) as [idx|] eqn:Ef; simpl in Hs.
    + exfalso. destruct (findIndex_Some _ _ _ Ef) as (p & Hp' & _).
      rewrite Hp' in Hs. discriminate.
    + split; [reflexivity|].
      unfold addToCart. rewrite (valid_request _ _ Hp Hq). run_handler.
      unfold logged. now rewrite Hf, Ef.
Qed.

Lemma effects_of_logged (es : list Effect) (w : World) :
  effects_of w (logged es w) = es.
Proof. now apply effects_of_app. Qed.

Lemma effects_of_same (w : World) : effects_of w w = [].
Proof. apply effects_of_app. now rewrite app_nil_r. Qed.

(** X1. [addToCart] never writes the file, never touches the product cache
    or the link and never calls [sendToVMC]; whenever its answer is not the
    cart, the cart is as it was; and when it answers with a cart, that is
    the cart it leaves. *)
Theorem addToCart_failure_leaves_cart (productId quantity : jsval) (w : World) :
  let r := fst (addToCart productId quantity w) in
  let w' := snd (addToCart productId quantity w) in
  file w' = file w /\ cachedProducts w' = cachedProducts w /\
  vmcClient w' = vmcClient w /\
  existsb is_write (effects_of w w') = false /\
  existsb is_submission (effects_of w w') = false /\
  ((forall items, r <> R200_cart items) -> cart w' = cart w) /\
  (forall items, r = R200_cart items -> items = cart w').
Proof.
  simpl.
  destruct (addToCart_cases productId quantity w)
    as [[_ ->]|(pid & qty & _ & _ & _ & _ &
                [[_ ->]|(data & Hf & [[_ ->]|[(n & _ & _ & ->)|
                  (available & _ & [[_ ->]|[_ ->]])]])])];
    simpl; rewrite ?effects_of_same, ?effects_of_logged;
    try (repeat split; (reflexivity || discriminate)).
  erewrite effects_of_app by reflexivity.
  do 5 (split; [reflexivity|]). split.
  - intros H. exfalso. now apply (H _ eq_refl).
  - now intros items [= ->].
Qed.

Lemma strict_eq_Fin (n : jsnum) (k : Q) :
  strict_eq n (Fin k) = true <-> exists q, n = Fin q /\ (q == k)%Q.
Proof.
  destruct n as [q| | |]; simpl.
  - rewrite Qeq_bool_true. split; [eauto | now intros (q' & [= <-] & H)].
  - split; [discriminate | intros (q' & [=] & _)].
  - split; [discriminate | intros (q' & [=] & _)].
  - split; [discriminate | intros (q' & [=] & _)].
Qed.

(** X2. For a request that passes the guard and a readable file,
    [addToCart] answers 404 for the product exactly when no record of the
    file carries its id. *)
Theorem addToCart_not_found_iff (w : World) (data : list RawProduct)
    (pid qty : Q) :
  ~ (pid == 0)%Q -> (0 < qty)%Q -> file w = Some data ->
  (fst (addToCart (JNum (Fin pid)) (JNum (Fin qty)) w) = R404_not_found pid <->
   forall p q, In p data -> product_id p = Fin q -> ~ (q == pid)%Q).
Proof.
  intros Hp Hq Hf. unfold addToCart. rewrite (valid_request _ _ Hp Hq).
  run_handler. rewrite Hf.
  destruct (findIndex _ data) as [idx|] eqn:Ef.
  - destruct (findIndex_Some _ _ _ Ef) as (p & Hd & Hpid). rewrite Hd.
    apply strict_eq_Fin in Hpid. destruct Hpid as (q & Hq' & Hqk).
    split.
    + destruct (shelf_life_count p); [destruct (Qgt_bool _ _)|..]; discriminate.
    + intros H. exfalso. apply (H p q); auto.
      apply list_elem_of_In. eapply list_elem_of_lookup_2. exact Hd.
  - split; [intros _|reflexivity]. intros p q Hin Hid Hqk.
    rewrite findIndex_None in Ef. specialize (Ef p Hin). simpl in Ef.
    assert (Ht : strict_eq (product_id p) (Fin pid) = true)
      by (apply strict_eq_Fin; eauto).
    congruence.
Qed.

Lemma addToCart_not_found_iff_witness :
  fst (addToCart (num 8) (num 1) (kiosk [product 7 2 true] [])) =
    R404_not_found 8 <->
  forall p q, In p [product 7 2 true] -> product_id p = Fin q -> ~ (q == 8)%Q.
Proof.
  apply (addToCart_not_found_iff (kiosk [product 7 2 true] [])
           [product 7 2 true] 8 1); easy.
Defined.

(** ** What the cart holds *)

Lemma Map_set_In_precise {V} (m : list (Q * V)) (k k' : Q) (v v' : V) :
  In (k', v') (Map_set m k v) -> In (k', v') m \/ ((k' == k)%Q /\ v' = v).
Proof.
  induction m as [|[k0 v0] m IH]; simpl.
  - intros [[= <- <-]|[]]. right. split; reflexivity.
  - destruct (Qeq_bool k0 k) eqn:E; simpl.
    + intros [[= <- <-]|Hin]; [|auto].
      right. split; [now apply Qeq_bool_true | reflexivity].
    + intros [H|Hin]; [auto|]. destruct (IH Hin); auto.
Qed.


(** What serving one request does to the cart: it is emptied, or the file
    stays and the cart is kept or gets one line set by an [addToCart] that
    passed its guard and its stock check. *)
Lemma router_step (rq : Request) (w : World) :
  let w' := snd (router rq w) in
  cart w' = [] \/
  (file w' = file w /\
   (cart w' = cart w \/
    exists pid qty data available,
      file w = Some data /\ ~ (pid == 0)%Q /\ (0 < qty)%Q /\
      live_stock data pid = Some (Fin available) /\
      (default 0 (Map_get (cart w) pid) + qty <= available)%Q /\
      cart w' =
        Map_set (cart w) pid (default 0 (Map_get (cart w) pid) + qty)%Q)).
Proof.
  destruct rq as [|productId quantity| |now_load now_id|]; simpl.
  - right. auto.
  - right.
    destruct (addToCart_cases productId quantity w)
      as [[_ ->]|(pid & qty & _ & _ & Hp & Hq &
                  [[_ ->]|(data & Hf & [[_ ->]|[(n & _ & _ & ->)|
                    (available & Hs & [[_ ->]|[Hle ->]])]])])];
      simpl; auto.
    split; [reflexivity|]. right. exists pid, qty, data, available. auto 8.
  - left. reflexivity.
  - right. rewrite prepareCheckout_run. simpl.
    destruct (loadProducts_run now_load w) as (_ & -> & -> & _). auto.
  - rewrite confirmCheckout_run.
    set (w0 := logged [EReadFile] w).
    assert (Hfail :
      cart w0 = [] \/
      (file w0 = file w /\
       (cart w0 = cart w \/
        exists pid qty data available,
          file w = Some data /\ ~ (pid == 0)%Q /\ (0 < qty)%Q /\
          live_stock data pid = Some (Fin available) /\
          (default 0 (Map_get (cart w) pid) + qty <= available)%Q /\
          cart w0 =
            Map_set (cart w) pid (default 0 (Map_get (cart w) pid) + qty)%Q)))
      by (right; split; [reflexivity | left; reflexivity]).
    clearbody w0.
    destruct (file w) as [data|]; [|exact Hfail].
    destruct (validate _ _ _); [exact Hfail|].
    destruct (deduct _ _ _); [|exact Hfail].
    destruct (writable w); [|exact Hfail].
    left. reflexivity.
Qed.

Lemma cart_positive_served (rq : Request) (w : World) :
  cart_positive w -> cart_positive (snd (router rq w)).
Proof.
  intros Hpos. destruct (router_step rq w) as [E|(_ & [E|E])].
  - intros pid q. rewrite E. intros [].
  - intros pid q. rewrite E. apply Hpos.
  - destruct E as (pid & qty & data & available & _ & Hp & Hq & _ & _ & E).
    intros k v. rewrite E. intros Hin.
    destruct (Map_set_In_precise _ _ _ _ _ Hin) as [Hold|[Hk ->]];
      [now apply Hpos|].
    split; [now rewrite Hk|].
    destruct (Map_get (cart w) pid) as [v0|] eqn:Eg; simpl.
    + destruct (Map_get_In _ _ _ Eg) as (k0 & Hin0 & _).
      destruct (Hpos k0 v0 Hin0) as [_ Hv0]. lra.
    + lra.
Qed.

Lemma cart_positive_history (os : list Occurrence) (w : World) :
  cart_positive w -> cart_positive (history os w).
Proof.
  revert w. induction os as [|o os IH]; intros w Hw; simpl; [exact Hw|].
  apply IH. destruct o as [rq|f]; [now apply cart_positive_served | exact Hw].
Qed.

(** X3. Whatever requests are served and however the stock is edited from
    outside, every line of the cart is for a non-zero product id and a
    quantity above zero. *)
Theorem cart_lines_positive (os : list Occurrence)
    (data : option (list RawProduct)) (can_write : bool) (pid q : Q) :
  In (pid, q) (cart (history os (boot data can_write))) ->
  ~ (pid == 0)%Q /\ (0 < q)%Q.
Proof.
  apply (cart_positive_history os (boot data can_write)). intros ? ? [].
Qed.

Lemma cart_lines_positive_witness :
  let os := [Served (POST_add (num 7) (num 2)); Restocked (fun _ => Fin 0);
             Served (POST_add (num 7) (num 1))] in
  cart (history os (boot (Some [product 7 2 true]) true)) = [(7%Q, (0 + 2)%Q)] /\
  ~ (7 == 0)%Q /\ (0 < 0 + 2)%Q.
Proof.
  intros os. split; [reflexivity|].
  apply (cart_lines_positive os (Some [product 7 2 true]) true 7 (0 + 2)).
  simpl. now left.
Defined.





(** ** The record read by addToCart and the record used by confirmCheckout *)

Lemma index_from_last (rest pre : list RawProduct) (m : list (Q * nat)) :
  (forall k i, Map_get m k = Some i ->
     forall j item q, (i < j)%nat -> pre !! j = Some item ->
       product_id item = Fin q -> ~ (q == k)%Q) ->
  forall k i, Map_get (index_from (length pre) rest m) k = Some i ->
     forall j item q, (i < j)%nat -> (pre ++ rest) !! j = Some item ->
       product_id item = Fin q -> ~ (q == k)%Q.
Proof.
  revert pre m. induction rest as [|p rest IH]; intros pre m Hm k i; simpl.
  - rewrite app_nil_r. apply Hm.
  - replace (pre ++ p :: rest) with ((pre ++ [p]) ++ rest)
      by (rewrite <- app_assoc; reflexivity).
    replace (S (length pre)) with (length (pre ++ [p]))
      by (rewrite length_app; simpl; lia).
    apply IH. clear k i. intros k i Hi j item q Hij Hj Hq Hqk.
    destruct (Nat.lt_trichotomy j (length pre)) as [Hlt|[->|Hgt]].
    + rewrite lookup_app_l in Hj by exact Hlt.
      destruct (product_id p) as [q0| | |] eqn:Ep;
        try (exact (Hm k i Hi j item q Hij Hj Hq Hqk)).
      rewrite Map_get_set in Hi.
      destruct (Qeq_bool q0 k);
        [|exact (Hm k i Hi j item q Hij Hj Hq Hqk)].
      injection Hi as <-. lia.
    + rewrite list_lookup_middle in Hj by reflexivity. injection Hj as <-.
      rewrite Hq in Hi. rewrite Map_get_set in Hi.
      apply Qeq_bool_true in Hqk. rewrite Hqk in Hi. injection Hi as <-. lia.
    + rewrite lookup_ge_None_2 in Hj; [discriminate|].
      rewrite length_app. simpl. lia.
Qed.

(** X5. [addToCart] reads the first record of the file that carries the
    product's id, [confirmCheckout] reads and writes the last one: no
    earlier record than the first and no later record than the last carries
    the id, the first is not after the last, and they are the same record
    when ids are unique. *)
Theorem first_and_last_record (data : list RawProduct) (k : Q) (i j : nat) :
  findIndex (fun p => strict_eq (product_id p) (Fin k)) data = Some i ->
  Map_get (build_index data) k = Some j ->
  (i <= j)%nat /\
  (forall n p, (n < i)%nat -> data !! n = Some p ->
     strict_eq (product_id p) (Fin k) = false) /\
  (forall n p, (j < n)%nat -> data !! n = Some p ->
     strict_eq (product_id p) (Fin k) = false) /\
  (unique_ids data -> i = j).
Proof.
  intros Hi Hj.
  pose proof (findIndex_first _ _ _ Hi) as Hfirst.
  destruct (findIndex_Some _ _ _ Hi) as (pi & Hpi & Hpik).
  destruct (build_index_sound _ _ _ Hj) as (pj & qj & Hpj & Hqj & Hqjk).
  assert (Hlast : forall n p, (j < n)%nat -> data !! n = Some p ->
                    strict_eq (product_id p) (Fin k) = false).
  { intros n p Hn Hp. apply not_true_is_false. intros Ht.
    apply strict_eq_Fin in Ht. destruct Ht as (q & Hq & Hqk).
    apply (index_from_last data [] [] (fun _ _ H => ltac:(discriminate H))
             k j Hj n p q Hn Hp Hq Hqk). }
  split; [|split; [exact Hfirst|split; [exact Hlast|]]].
  - destruct (Nat.le_gt_cases i j) as [?|Hlt]; [assumption|]. exfalso.
    specialize (Hfirst j pj Hlt Hpj).
    assert (Ht : strict_eq (product_id pj) (Fin k) = true)
      by (apply strict_eq_Fin; eauto).
    congruence.
  - intros Hu. apply strict_eq_Fin in Hpik. destruct Hpik as (qi & Hqi & Hqik).
    apply (Hu i j qi qj).
    + now rewrite list_lookup_fmap, Hpi; simpl; rewrite Hqi.
    + now rewrite list_lookup_fmap, Hpj; simpl; rewrite Hqj.
    + now rewrite Hqik, Hqjk.
Qed.

(** Two records for product 7: [addToCart] reads the one at 0,
    [confirmCheckout] the one at 1. *)
Lemma first_and_last_record_witness :
  (0 <= 1)%nat /\
  (forall n p, (n < 0)%nat -> [product 7 2 true; product 7 5 true] !! n = Some p ->
     strict_eq (product_id p) (Fin 7) = false) /\
  (forall n p, (1 < n)%nat -> [product 7 2 true; product 7 5 true] !! n = Some p ->
     strict_eq (product_id p) (Fin 7) = false) /\
  (unique_ids [product 7 2 true; product 7 5 true] -> 0%nat = 1%nat).
Proof.
  apply (first_and_last_record [product 7 2 true; product 7 5 true] 7 0 1);
    reflexivity.
Defined.

(** ** From the cart to a confirmed order *)







(** ** What confirmCheckout hands to the controller *)

(** X7. Confirming an empty cart is not refused: the file is written back
    as it was read, the cache is dropped, and [sendToVMC] is called with an
    empty list of items, a command the controller answers as invalid
    whatever its state. *)
Theorem confirmCheckout_empty_cart (w : World) (data : list RawProduct) :
  file w = Some data -> writable w = true -> cart w = [] ->
  confirmCheckout w =
    (R200_confirmed [] (link_open (vmcClient w)) 0,
     {| file := Some data; writable := true; cart := [];
        cachedProducts := None; lastLoaded := 0;
        vmcClient := if link_open (vmcClient w) then LinkOpen else LinkConnecting;
        log := log w ++ confirm_effects (link_open (vmcClient w)) [] |}) /\
  forall now s,
    VmcServer.on_message now (vend_frame []) s =
    ([VmcServer.Send VmcServer.vend_response_invalid], s).
Proof.
  intros Hf Hw Hc. split; [|reflexivity].
  rewrite confirmCheckout_run, Hf, Hc, Hw. reflexivity.
Qed.

Lemma confirmCheckout_empty_cart_witness :
  fst (confirmCheckout (kiosk [product 7 2 true] [])) = R200_confirmed [] true 0 /\
  effects_of (kiosk [product 7 2 true] [])
    (snd (confirmCheckout (kiosk [product 7 2 true] []))) =
    [EReadFile; EWriteFile; EInvalidateCache; ECartClear; ESendToVMC [];
     ESocketSend []].
Proof.
  destruct (confirmCheckout_empty_cart (kiosk [product 7 2 true] [])
              [product 7 2 true] eq_refl eq_refl eq_refl) as [-> _].
  split; reflexivity.
Defined.

Lemma units_pos (q : Q) : (0 < q)%Q -> (0 < units q)%nat.
Proof.
  intros Hq. unfold units.
  assert (H : (0 < Qceiling q)%Z).
  { apply Z.lt_nge. intros Hle. apply (Qlt_not_le _ _ Hq).
    apply Qle_trans with (inject_Z (Qceiling q)); [apply Qle_ceiling|].
    change 0%Q with (inject_Z 0). now rewrite <- Zle_Qle. }
  lia.
Qed.

(** A cart with lines, all of a positive quantity, expands to a list that
    is not empty. *)
Lemma expand_nonempty (c : list (Q * Q)) :
  c <> [] -> (forall pid q, In (pid, q) c -> (0 < q)%Q) ->
  exists x l, expand c = x :: l.
Proof.
  rewrite expand_flat_map. destruct c as [|[p q] c]; [congruence|].
  intros _ H. simpl. pose proof (units_pos q (H p q (or_introl eq_refl))) as Hu.
  destruct (units q) as [|u]; [lia|]. simpl. eauto.
Qed.

(** X8. A confirmed cart whose lines are of positive quantities, sent over
    an open link to an idle controller, starts a cycle for exactly the
    units counted in the answer: the controller is then vending the
    expanded list, stamped with its clock. *)
Theorem confirmed_vend_starts_cycle (w w' : World) (checkedOut : list (Q * Q))
    (n : nat) (s : VmcServer.Server) (now : Z) :
  confirmCheckout w = (R200_confirmed checkedOut true n, w') ->
  cart w <> [] -> cart_positive w ->
  VmcServer.status (VmcServer.vendingState s) = VmcServer.idle ->
  let items := expand (cart w) in
  let s' := snd (VmcServer.on_message now (vend_frame items) s) in
  In (ESocketSend items) (effects_of w w') /\
  (0 < n)%nat /\
  VmcServer.status (VmcServer.vendingState s') = VmcServer.vending /\
  VmcServer.currentItems (VmcServer.vendingState s') =
    (fun q => JNum (Fin q)) <$> items /\
  length (VmcServer.currentItems (VmcServer.vendingState s')) = n /\
  VmcServer.startTime (VmcServer.vendingState s') = Some now.
Proof.
  intros Hc Hne Hpos Hidle items s'.
  destruct (confirmCheckout_success_inv _ _ _ _ _ Hc)
    as (data & data' & _ & _ & _ & _ & _ & _ & -> & ->).
  destruct (expand_nonempty (cart w) Hne (fun p q H => proj2 (Hpos p q H)))
    as (x & l & Hx).
  subst s' items. unfold vend_frame. rewrite Hx in *.
  split.
  { erewrite effects_of_app by reflexivity. simpl. auto 10. }
  split; [simpl; lia|].
  simpl. rewrite Hidle. simpl.
  repeat split. now rewrite length_fmap.
Qed.

Lemma confirmed_vend_starts_cycle_witness :
  let w := kiosk [product 7 2 true] [(7%Q, 2%Q)] in
  let s' := snd (VmcServer.on_message 1700000000000
                   (vend_frame (expand (cart w))) VmcServer.initial) in
  VmcServer.status (VmcServer.vendingState s') = VmcServer.vending /\
  VmcServer.currentItems (VmcServer.vendingState s') =
    [VmcServer.item 7; VmcServer.item 7].
Proof.
  intros w s'.
  destruct (confirmed_vend_starts_cycle w (snd (confirmCheckout w))
              [(7%Q, 2%Q)] 2 VmcServer.initial 1700000000000)
    as (_ & _ & Hs & Hi & _).
  - vm_compute. reflexivity.
  - discriminate.
  - intros p q [[= <- <-]|[]]. split; [discriminate | reflexivity].
  - reflexivity.
  - split; [exact Hs | exact Hi].
Defined.

(** X9. The same command reaching a controller that is vending is refused
    as busy and changes nothing there, while the backend has already
    written the deducted stock and emptied the cart, and has scheduled no
    second attempt: the vend is not re-sent. *)
Theorem confirmed_vend_refused_when_busy (w w' : World)
    (checkedOut : list (Q * Q)) (n : nat) (s : VmcServer.Server) (now : Z) :
  confirmCheckout w = (R200_confirmed checkedOut true n, w') ->
  cart w <> [] -> cart_positive w ->
  VmcServer.status (VmcServer.vendingState s) = VmcServer.vending ->
  VmcServer.on_message now (vend_frame (expand (cart w))) s =
    ([VmcServer.Send
        (VmcServer.vend_response_busy
           (VmcServer.currentItems (VmcServer.vendingState s)))], s) /\
  existsb is_write (effects_of w w') = true /\
  cart w' = [] /\
  existsb is_retry (effects_of w w') = false.
Proof.
  intros Hc Hne Hpos Hbusy.
  destruct (confirmCheckout_success_inv _ _ _ _ _ Hc)
    as (data & data' & _ & _ & _ & _ & _ & _ & -> & ->).
  destruct (expand_nonempty (cart w) Hne (fun p q H => proj2 (Hpos p q H)))
    as (x & l & Hx).
  erewrite effects_of_app by reflexivity.
  unfold vend_frame. rewrite Hx. simpl. rewrite Hbusy. auto.
Qed.

Lemma confirmed_vend_refused_when_busy_witness :
  let w := kiosk [product 7 2 true] [(7%Q, 2%Q)] in
  let s := VmcServer.run
             [VmcServer.Post_vend 1700000000000 (JArr [VmcServer.item 3])]
             VmcServer.initial in
  VmcServer.on_message 1700000001000 (vend_frame (expand (cart w))) s =
    ([VmcServer.Send (VmcServer.vend_response_busy [VmcServer.item 3])], s).
Proof.
  intros w s.
  destruct (confirmed_vend_refused_when_busy w (snd (confirmCheckout w))
              [(7%Q, 2%Q)] 2 s 1700000001000) as (H & _).
  - vm_compute. reflexivity.
  - discriminate.
  - intros p q [[= <- <-]|[]]. split; [discriminate | reflexivity].
  - reflexivity.
  - exact H.
Defined.

(** X10. With the link down, a confirmed order is sent nowhere at first:
    [sendToVMC] opens a socket, [confirmCheckout] opens another and sets
    one timer of 1000 ms for the same list. When that timer fires the list
    goes on the socket only if the link is open by then; otherwise a third
    socket is opened, and in neither case is another timer set. *)
Theorem confirm_retries_once (w w' : World) (checkedOut : list (Q * Q)) (n : nat) :
  confirmCheckout w = (R200_confirmed checkedOut false n, w') ->
  let items := expand (cart w) in
  vmcClient w <> LinkOpen /\
  effects_of w w' =
    [EReadFile; EWriteFile; EInvalidateCache; ECartClear; ESendToVMC items;
     ENewSocket; ENewSocket; ESetTimeout 1000 items] /\
  forall w2,
    let w3 := snd (resend_callback items w2) in
    existsb is_retry (effects_of w2 w3) = false /\
    (vmcClient w2 = LinkOpen ->
     effects_of w2 w3 = [ESendToVMC items; ESocketSend items]) /\
    (vmcClient w2 <> LinkOpen ->
     effects_of w2 w3 = [ESendToVMC items; ENewSocket] /\
     vmcClient w3 = LinkConnecting).
Proof.
  intros Hc items.
  destruct (confirmCheckout_success_inv _ _ _ _ _ Hc)
    as (data & data' & _ & _ & _ & _ & _ & Hs & _ & ->).
  split; [intros E; rewrite E in Hs; discriminate|].
  split; [now erewrite effects_of_app by reflexivity|].
  intros w2. unfold resend_callback, sendToVMC, connectToVMC. run_handler.
  unfold effects_of.
  destruct (vmcClient w2) eqn:E; simpl; rewrite drop_app3_length; simpl;
    repeat split; try congruence; try reflexivity.
Qed.

Lemma confirm_retries_once_witness :
  let w := kiosk_offline [product 7 2 true] [(7%Q, 2%Q)] in
  effects_of w (snd (confirmCheckout w)) =
    [EReadFile; EWriteFile; EInvalidateCache; ECartClear;
     ESendToVMC [7%Q; 7%Q]; ENewSocket; ENewSocket;
     ESetTimeout 1000 [7%Q; 7%Q]].
Proof.
  intros w.
  destruct (confirm_retries_once w (snd (confirmCheckout w))
              [(7%Q, 2%Q)] 2) as (_ & H & _); [vm_compute; reflexivity|].
  exact H.
Defined.

(** ** Totals shown and totals charged *)

Lemma totals_agree (products : list JsonProduct) (entries : list (Q * Q)) :
  forall (tq a b : Q), (a == b)%Q ->
  (snd (fold_left
          (fun '(totalQty, totalAmount) '(productId, quantity) =>
             ((totalQty + quantity)%Q,
              match List.find (fun pr => strict_eq (id pr) (Fin productId)) products with
              | Some p => (totalAmount + price p * quantity)%Q
              | None => totalAmount
              end))
          entries (tq, a)) ==
   fold_left (fun s it => (s + line_amount it)%Q)
     (map (order_line products) entries) b)%Q.
Proof.
  induction entries as [|[pid q] rest IH]; intros tq a b Hab; simpl; [exact Hab|].
  apply IH. destruct (List.find _ products); simpl; rewrite Hab; ring.
Qed.

(** X11. The amount the cart drawer of the kiosk shows is the total
    [prepareCheckout] answers with, when the page and the backend hold the
    same product list: a line whose product is not in the list adds
    nothing on either side. *)
Theorem drawer_total_is_order_total (w : World) (now_load now_id : Z)
    (products : list JsonProduct) (total : Q) :
  catalog_at now_load w = Some products ->
  order_total (fst (prepareCheckout now_load now_id w)) = Some total ->
  (snd (cartTotals (cart w) products) == total)%Q.
Proof.
  intros Hcat. rewrite prepareCheckout_run, Hcat. simpl. intros [= <-].
  apply totals_agree. reflexivity.
Qed.

Lemma drawer_total_is_order_total_witness :
  let w := kiosk [product 7 2 true; product 9 5 true]
                 [(7%Q, 2%Q); (8%Q, 1%Q); (9%Q, 3%Q)] in
  (snd (cartTotals (cart w) (map toJsonProduct [product 7 2 true; product 9 5 true]))
   == 50)%Q.
Proof.
  intros w.
  rewrite (drawer_total_is_order_total w 5 5
             (map toJsonProduct [product 7 2 true; product 9 5 true])
             (0 + 10 * 2 + 0 * 1 + 10 * 3)%Q); reflexivity.
Defined.

(** ** The product cache *)

(** X12. While the cache is filled, a [loadProducts] less than 60000 ms
    after the load that filled it serves the cached list without reading
    the file and changes nothing; from 60000 ms on it reads the file:
    a readable file replaces the cache and restarts the clock, an
    unreadable one makes the call fail and leaves the old cache in place. *)
Theorem loadProducts_cache_window (w : World) (now : Z)
    (products : list JsonProduct) :
  cachedProducts w = Some products ->
  ((now - lastLoaded w < 60000)%Z -> loadProducts now w = (Some products, w)) /\
  ((60000 <= now - lastLoaded w)%Z ->
   match file w with
   | Some data =>
       loadProducts now w =
       (Some (map toJsonProduct data),
        {| file := file w; writable := writable w; cart := cart w;
           cachedProducts := Some (map toJsonProduct data); lastLoaded := now;
           vmcClient := vmcClient w; log := log w ++ [EReadFile] |})
   | None => loadProducts now w = (None, logged [EReadFile] w)
   end).
Proof.
  intros Hc. unfold loadProducts. rewrite Hc. unfold CACHE_TTL_MS. split.
  - intros H. apply Z.ltb_lt in H. change (60 * 1000)%Z with 60000%Z.
    now rewrite H.
  - intros H. apply Z.ltb_ge in H. change (60 * 1000)%Z with 60000%Z.
    rewrite H. run_handler. unfold logged. now destruct (file w).
Qed.

Lemma loadProducts_cache_window_witness :
  let w := snd (loadProducts 1000 (kiosk [product 7 2 true] [])) in
  loadProducts 60999 w = (Some [toJsonProduct (product 7 2 true)], w) /\
  effects_of w (snd (loadProducts 61000 w)) = [EReadFile].
Proof.
  intros w.
  destruct (loadProducts_cache_window w 60999 [toJsonProduct (product 7 2 true)]
              eq_refl) as [Hin _].
  destruct (loadProducts_cache_window w 61000 [toJsonProduct (product 7 2 true)]
              eq_refl) as [_ Hout].
  split; [apply Hin; reflexivity|].
  simpl in Hout. rewrite Hout by reflexivity. reflexivity.
Defined.

Lemma loadProducts_no_cache (w : World) (now : Z) (data : list RawProduct) :
  cachedProducts w = None -> file w = Some data ->
  loadProducts now w =
  (Some (map toJsonProduct data),
   {| file := file w; writable := writable w; cart := cart w;
      cachedProducts := Some (map toJsonProduct data); lastLoaded := now;
      vmcClient := vmcClient w; log := log w ++ [EReadFile] |}).
Proof.
  intros Hc Hf. unfold loadProducts. rewrite Hc. run_handler. now rewrite Hf.
Qed.

(** X13. A successful [confirmCheckout] drops the cache: the next
    [loadProducts], at whatever clock reading, reads the file that was just
    written and serves its products. *)
Theorem confirm_then_load_reads_file (w w' : World) (checkedOut : list (Q * Q))
    (sent : bool) (n : nat) (now : Z) :
  confirmCheckout w = (R200_confirmed checkedOut sent n, w') ->
  exists data',
    file w' = Some data' /\
    fst (loadProducts now w') = Some (map toJsonProduct data') /\
    effects_of w' (snd (loadProducts now w')) = [EReadFile] /\
    lastLoaded (snd (loadProducts now w')) = now.
Proof.
  intros Hc.
  destruct (confirmCheckout_success_inv _ _ _ _ _ Hc)
    as (data & data' & _ & _ & _ & _ & _ & _ & _ & ->).
  exists data'. split; [reflexivity|].
  rewrite (loadProducts_no_cache _ now data') by reflexivity.
  simpl. split; [reflexivity|]. split; [|reflexivity].
  now apply effects_of_app.
Qed.

Lemma confirm_then_load_reads_file_witness :
  let w := kiosk [product 7 2 true] [(7%Q, 2%Q)] in
  exists data',
    file (snd (confirmCheckout w)) = Some data' /\
    fst (loadProducts 1 (snd (confirmCheckout w))) = Some (map toJsonProduct data') /\
    effects_of (snd (confirmCheckout w))
      (snd (loadProducts 1 (snd (confirmCheckout w)))) = [EReadFile] /\
    lastLoaded (snd (loadProducts 1 (snd (confirmCheckout w)))) = 1%Z.
Proof.
  intros w.
  apply (confirm_then_load_reads_file w (snd (confirmCheckout w))
           [(7%Q, 2%Q)] true 2 1).
  vm_compute. reflexivity.
Defined.





(** ** The controller's cycle *)

Module VmcCycle.
Import VmcServer VmcTimers.

Lemma tidy_initial : tidy initial.
Proof. split; reflexivity. Qed.

Lemma tidy_start_cycle (now : Z) (items : list jsval) (s : Server) :
  tidy s -> status (vendingState s) = idle -> tidy (start_cycle now items s).
Proof.
  unfold tidy. intros H Hidle. rewrite Hidle in H. destruct H as [_ Ht].
  simpl. exists (S (next_handle s)). split; [reflexivity|]. left.
  exists (next_handle s). rewrite Ht. repeat split. lia.
Qed.

Lemma tidy_tick (now : Z) (s : Server) : tidy s -> tidy (snd (tick now s)).
Proof.
  unfold tidy, tick. intros H.
  destruct (status (vendingState s)) eqn:Es.
  - destruct H as [Hv Ht].
    assert (Hi : statusInterval (vendingState s) = None) by now rewrite Hv.
    rewrite Hi. simpl. rewrite Es. auto.
  - destruct (startTime_truthy _); simpl; [now rewrite Es|].
    destruct H as (hT & HhT & [(hI & HhI & Hne & Ht)|(HhI & Ht)]).
    + rewrite HhI. simpl. exists hT. split; [exact HhT|]. right.
      split; [reflexivity|]. rewrite Ht. simpl. rewrite Nat.eqb_refl. simpl.
      replace (hT =? hI)%nat with false; [reflexivity|].
      symmetry. apply Nat.eqb_neq. congruence.
    + rewrite HhI. simpl. rewrite Es. exists hT. split; [exact HhT|]. right. auto.
Qed.

(** Firing the completion timer of a tidy vending state. *)
Lemma fire_completion (now : Z) (s : Server) (hT : nat) :
  tidy s -> status (vendingState s) = vending ->
  timeout (vendingState s) = Some hT ->
  step (Fire now hT) s =
    ([Broadcast (vend_complete (currentItems (vendingState s)))],
     {| vendingState := vendingState initial; timers := [];
        next_handle := next_handle s |}).
Proof.
  unfold tidy. intros H Hv HhT. rewrite Hv in H.
  destruct H as (h & Hh & H). rewrite HhT in Hh. injection Hh as <-.
  destruct H as [(hI & HhI & Hne & Ht)|(HhI & Ht)]; simpl; rewrite Ht; simpl.
  - replace (hI =? hT)%nat with false
      by (symmetry; apply Nat.eqb_neq; congruence).
    rewrite Nat.eqb_refl. unfold complete. simpl. rewrite HhI. simpl.
    now rewrite Nat.eqb_refl.
  - rewrite Nat.eqb_refl. unfold complete. simpl. now rewrite HhI.
Qed.

Lemma tidy_step (e : Event) (s : Server) : tidy s -> tidy (snd (step e s)).
Proof.
  intros H. destruct e as [|now f|now|now items|now h]; simpl.
  - exact H.
  - destruct f as [|type items]; simpl; [exact H|].
    destruct (is_type "vend" type).
    + destruct (nonempty_array items); [|exact H].
      destruct (status (vendingState s)) eqn:Es; simpl; [|exact H].
      now apply tidy_start_cycle.
    + destruct (is_type "status" type).
      * destruct (status (vendingState s)); exact H.
      * destruct (is_type "health" type); exact H.
  - unfold get_status. destruct (status (vendingState s)); [exact H|].
    destruct (startTime_truthy _); exact H.
  - unfold post_vend. destruct (nonempty_array items); [|exact H].
    destruct (status (vendingState s)) eqn:Es; simpl; [|exact H].
    now apply tidy_start_cycle.
  - destruct (List.find _ (timers s)) as [[h' k]|] eqn:Ef; [|exact H].
    destruct k; [now apply tidy_tick|].
    pose proof H as H'. unfold tidy in H'.
    destruct (status (vendingState s)) eqn:Es.
    { destruct H' as [_ Ht]. rewrite Ht in Ef. discriminate. }
    destruct H' as (hT & HhT & Hts).
    assert (h = hT).
    { destruct Hts as [(hI & _ & _ & Ht)|(_ & Ht)]; rewrite Ht in Ef; simpl in Ef.
      - destruct (hI =? h)%nat; [discriminate|].
        destruct (hT =? h)%nat eqn:E; [|discriminate].
        apply Nat.eqb_eq in E. congruence.
      - destruct (hT =? h)%nat eqn:E; [|discriminate].
        apply Nat.eqb_eq in E. congruence. }
    subst h. pose proof (fire_completion now s hT H Es HhT) as Hfire.
    simpl in Hfire. rewrite Ef in Hfire. rewrite Hfire. simpl. split; reflexivity.
Qed.

Lemma tidy_run (es : list Event) (s : Server) : tidy s -> tidy (run es s).
Proof.
  revert s. induction es as [|e es IH]; intros s H; simpl; [exact H|].
  apply IH. now apply tidy_step.
Qed.

Lemma start_cycle_changes (now : Z) (l : list jsval) (s : Server) :
  status (vendingState s) = idle -> start_cycle now l s <> s.
Proof.
  intros Hidle E. apply (f_equal (fun x => status (vendingState x))) in E.
  simpl in E. congruence.
Qed.

(** X15. A vend command starts a cycle exactly when the controller is idle
    and [items] is a non-empty array, and then the socket handler and
    [POST /vend] do the same to the state: vending, the items as given,
    the start stamped with the clock, a status interval and a completion
    timer added under two fresh handles. The two differ in their answers
    only. *)
Theorem vend_accepted_iff (now : Z) (items : jsval) (s : Server) :
  let ws := on_message now (Data (JStr "vend") items) s in
  let http := post_vend now items s in
  snd ws = snd http /\
  (snd ws <> s <->
   status (vendingState s) = idle /\ exists l, nonempty_array items = Some l) /\
  (forall l, status (vendingState s) = idle -> nonempty_array items = Some l ->
     fst ws = [Broadcast (status_started l (Some "Vending started"));
               Send (vend_response_started l 5000)] /\
     fst http = [Broadcast (status_started l None);
                 Respond (H200_started l 5000)] /\
     vendingState (snd ws) =
       {| status := vending; currentItems := l; startTime := Some now;
          timeout := Some (S (next_handle s));
          statusInterval := Some (next_handle s) |} /\
     timers (snd ws) =
       timers s ++ [(next_handle s, Interval); (S (next_handle s), Timeout)]).
Proof.
  simpl. unfold post_vend.
  destruct (nonempty_array items) as [l|] eqn:En;
    [destruct (status (vendingState s)) eqn:Es|]; simpl.
  - split; [reflexivity|]. split.
    + split; [eauto|]. intros _. now apply start_cycle_changes.
    + intros l' _ [= <-]. repeat split.
  - split; [reflexivity|]. split; [|discriminate].
    split; [intros H; now destruct H | intros [[=] _]].
  - split; [reflexivity|]. split; [|discriminate].
    split; [intros H; now destruct H | intros [_ [l [=]]]].
Qed.



(** X17. Timers do not pile up: however the controller is driven from its
    start, it holds at most two timers; whenever it is idle it holds none
    and its state is the one it started with; whenever it is vending the
    completion timer recorded in the state is pending. *)
Theorem timers_never_leak (es : list Event) :
  let s := run es initial in
  (length (timers s) <= 2)%nat /\
  (status (vendingState s) = idle ->
   vendingState s = vendingState initial /\ timers s = []) /\
  (status (vendingState s) = vending ->
   exists hT, timeout (vendingState s) = Some hT /\ In (hT, Timeout) (timers s)).
Proof.
  simpl. pose proof (tidy_run es initial tidy_initial) as H. unfold tidy in H.
  destruct (status (vendingState (run es initial))).
  - destruct H as [Hv Ht]. rewrite Ht. simpl. split; [lia|].
    split; [auto | discriminate].
  - destruct H as (hT & HhT & [(hI & _ & _ & Ht)|(_ & Ht)]); rewrite Ht; simpl;
      (split; [lia|]); (split; [discriminate|]); intros _; exists hT; auto.
Qed.





End VmcCycle.

(** ** Trays and item numbers (Products.tsx) *)

Module TrayFacts.
Import Trays.

Lemma TOTAL_PAGES_spec (len : nat) :
  TOTAL_PAGES len = Z.max 1 ((Z.of_nat len + 5) / 6).
Proof.
  unfold TOTAL_PAGES, ITEMS_PER_PAGE, ITEMS_PER_TRAY. f_equal.
  unfold Qceiling, Qfloor, Qdiv, Qmult, Qinv, Qopp, inject_Z; simpl.
  rewrite Z.mul_1_r. Z.div_mod_to_equations. lia.
Qed.

Lemma TOTAL_PAGES_bounds (len : nat) :
  (1 <= TOTAL_PAGES len)%Z /\
  (Z.of_nat len <= 6 * TOTAL_PAGES len)%Z /\
  (6 * (TOTAL_PAGES len - 1) < Z.max 1 (Z.of_nat len))%Z.
Proof.
  rewrite TOTAL_PAGES_spec. Z.div_mod_to_equations. lia.
Qed.

Lemma validPage_bounds (cur : Page) (len : nat) :
  (1 <= validPage cur len <= TOTAL_PAGES len)%Z.
Proof.
  pose proof (TOTAL_PAGES_bounds len) as (H1 & _).
  unfold validPage. destruct (Z.eqb_spec (TOTAL_PAGES len) 0); [lia|].
  destruct cur; simpl; lia.
Qed.

Lemma validPage_in_range (p : Z) (len : nat) :
  (1 <= p <= TOTAL_PAGES len)%Z -> validPage (Whole p) len = p.
Proof.
  intros H. unfold validPage.
  destruct (Z.eqb_spec (TOTAL_PAGES len) 0); simpl; lia.
Qed.

(** The tray is the block of six that starts at [startIndex]. *)
Lemma trayProducts_block {A} (cur : Page) (l : list A) :
  let start := Z.to_nat ((validPage cur (length l) - 1) * 6) in
  trayProducts cur l = take 6 (drop start l) /\
  (start <= length l)%nat /\ (l <> [] -> (start < length l)%nat).
Proof.
  intros start.
  pose proof (validPage_bounds cur (length l)) as Hv.
  pose proof (TOTAL_PAGES_bounds (length l)) as (H1 & H2 & H3).
  assert (Hs : (start <= length l)%nat /\ (l <> [] -> (start < length l)%nat)).
  { unfold start. split; [lia|].
    intros Hl. destruct l; [congruence|]. simpl length in *. lia. }
  split; [|exact Hs].
  unfold trayProducts, slice, endIndex, startIndex, ITEMS_PER_PAGE,
    ITEMS_PER_TRAY.
  set (v := validPage cur (length l)) in *.
  destruct (Z.ltb_spec (Z.max 0 ((v - 1) * 6)) 0); [lia|].
  destruct (Z.ltb_spec (Z.min (Z.max 0 ((v - 1) * 6) + 6)
                              (Z.of_nat (length l))) 0); [lia|].
  replace (Z.to_nat (Z.min (Z.max 0 ((v - 1) * 6)) (Z.of_nat (length l))))
    with start by (unfold start; lia).
  apply list_eq. intros i.
  rewrite !lookup_take, !lookup_drop.
  repeat case_decide; try reflexivity; try lia.
  symmetry. apply lookup_ge_None. lia.
Qed.

Lemma blocks_concat {A} (k : nat) (l : list A) :
  (length l <= 6 * k)%nat ->
  concat ((fun i => take 6 (drop (6 * i) l)) <$> seq 0 k) = l.
Proof.
  revert l. induction k as [|k IH]; intros l Hl.
  - destruct l; simpl in *; [reflexivity | lia].
  - rewrite <- cons_seq, <- fmap_S_seq, fmap_cons, <- list_fmap_compose.
    change (concat (?x :: ?xs)) with (x ++ concat xs).
    change (drop (6 * 0) l) with l.
    transitivity (take 6 l ++ drop 6 l); [|apply take_drop]. f_equal.
    etransitivity; [|apply (IH (drop 6 l)); rewrite length_drop; lia].
    f_equal. apply list_fmap_ext. intros _ i _. unfold compose.
    rewrite drop_drop. do 2 f_equal. lia.
Qed.

(** X19. The trays partition the product list: laid end to end in the
    order of the pagination dots, the trays of the pages [1 .. TOTAL_PAGES]
    give the filtered product list again, every product once and in order;
    no tray holds more than six products, and when there is a product at
    all no page the URL can ask for shows an empty tray. *)
Theorem trays_partition {A} (filteredProducts : list A) :
  let len := length filteredProducts in
  concat ((fun p => trayProducts (Whole p) filteredProducts) <$> page_dots len)
    = filteredProducts /\
  (forall cur, (length (trayProducts cur filteredProducts) <= 6)%nat) /\
  (filteredProducts <> [] ->
   forall cur, trayProducts cur filteredProducts <> []).
Proof.
  intros len.
  pose proof (TOTAL_PAGES_bounds len) as (H1 & H2 & H3).
  split; [|split].
  - unfold page_dots. rewrite <- list_fmap_compose.
    etransitivity;
      [|apply (blocks_concat (Z.to_nat (TOTAL_PAGES len))); fold len; lia].
    f_equal. apply list_fmap_ext. intros j i Hi. unfold compose.
    apply lookup_seq in Hi as (-> & Hi). simpl "+".
    destruct (trayProducts_block (Whole (Z.of_nat j + 1)) filteredProducts)
      as (-> & _). fold len.
    rewrite validPage_in_range by lia. do 2 f_equal. lia.
  - intros cur.
    destruct (trayProducts_block cur filteredProducts) as (-> & _).
    rewrite length_take. lia.
  - intros Hne cur.
    destruct (trayProducts_block cur filteredProducts) as (-> & _ & Hlt).
    specialize (Hlt Hne). intros E. apply (f_equal length) in E.
    rewrite length_take, length_drop in E. cbn [length] in E. lia.
Qed.

(** X20. The item number printed on a card is the product's position in
    the whole list, counted from one: whatever page the URL asks for, the
    product at place [i] of the tray shown is the product at place
    [getItemNumber i - 1] of the filtered list, and conversely every product
    at such a place with [i < 6] is on the tray. *)
Theorem item_number_is_position {A} (pageParam : option Parsed)
    (filteredProducts : list A) (i : nat) (x : A) :
  let cur := currentPageFromUrl pageParam in
  let len := length filteredProducts in
  trayProducts cur filteredProducts !! i = Some x <->
  (i < 6)%nat /\ (1 <= getItemNumber cur len i)%Z /\
  filteredProducts !! Z.to_nat (getItemNumber cur len i - 1) = Some x.
Proof.
  intros cur len.
  pose proof (validPage_bounds cur len) as Hv.
  destruct (trayProducts_block cur filteredProducts) as (-> & _). fold len.
  unfold getItemNumber, ITEMS_PER_PAGE, ITEMS_PER_TRAY.
  replace (Z.to_nat ((validPage cur len - 1) * 6 + Z.of_nat i + 1 - 1))
    with (Z.to_nat ((validPage cur len - 1) * 6) + i)%nat by lia.
  rewrite lookup_take, lookup_drop. case_decide.
  - split; [intros H'; repeat split; [lia|lia|exact H'] | now intros (_ & _ & H')].
  - split; [discriminate | intros (Hi & _); lia].
Qed.

End TrayFacts.

(** ** The card's guard against the backend's check *)




(** ** The kiosk's reconnecting socket (websocket.ts) *)

Module VMCWebSocketFacts.
Import VMCWebSocket.

Lemma clearTimeout_only (h : nat) (p : list (nat * Z)) :
  fst <$> p = [h] -> clearTimeout h p = [].
Proof.
  destruct p as [|[h' d] [|? ?]]; try discriminate.
  intros [= ->]. unfold clearTimeout. simpl. now rewrite Nat.eqb_refl.
Qed.

Lemma backoff_range (k : Z) :
  (0 <= k)%Z -> (1000 <= backoff k <= 10000)%Z.
Proof.
  intros Hk. unfold backoff.
  assert (0 < 2 ^ k)%Z by (apply Z.pow_pos_nonneg; lia). lia.
Qed.

Lemma attemptReconnect_cases (c : Client) :
  (attemptReconnect c = ([], c) /\
   ((5 <= reconnectAttempts c)%Z \/ reconnectTimeout c <> None)) \/
  ((reconnectAttempts c < 5)%Z /\ reconnectTimeout c = None /\
   attemptReconnect c =
     ([SetTimeout (next_timer c) (backoff (reconnectAttempts c))],
      {| ws := ws c; reconnectTimeout := Some (next_timer c);
         listeners := listeners c;
         reconnectAttempts := reconnectAttempts c + 1;
         sockets := sockets c;
         pending := pending c ++ [(next_timer c, backoff (reconnectAttempts c))];
         next_timer := S (next_timer c); url_ok := url_ok c |})).
Proof.
  unfold attemptReconnect, maxReconnectAttempts.
  destruct (Z.geb_spec (reconnectAttempts c) 5); [left; split; [reflexivity|lia]|].
  destruct (reconnectTimeout c) eqn:E.
  - left. split; [reflexivity|]. right. congruence.
  - right. split; [lia|]. split; reflexivity.
Qed.

Lemma attemptReconnect_settled (c : Client) :
  settled c -> settled (snd (attemptReconnect c)).
Proof.
  intros (Ha & Hp & Hw).
  destruct (attemptReconnect_cases c) as [(-> & _)|(Hlt & Hr & ->)]; simpl.
  - now repeat split.
  - rewrite Hr in Hp. simpl in Hp. apply fmap_nil_inv in Hp.
    rewrite Hp. repeat split; simpl; [lia|lia|exact Hw].
Qed.

Lemma connect_settled (c : Client) :
  settled c -> settled (snd (connect c)).
Proof.
  intros Hc. unfold connect.
  destruct (is_open c); [exact Hc|].
  destruct (url_ok c); [|now apply attemptReconnect_settled].
  destruct Hc as (Ha & Hp & Hw). simpl. repeat split; simpl; [lia|lia|exact Hp|].
  intros id [= <-]. left. now rewrite lookup_app_r, Nat.sub_diag by lia.
Qed.

(** Every state the object reaches is settled. *)
Lemma step_settled (e : Event) (c : Client) :
  settled c -> settled (snd (step e c)).
Proof.
  intros Hc. pose proof Hc as (Ha & Hp & Hw).
  destruct e as [| |cb|cb| |id|id|id data|id|h]; simpl.
  - now apply connect_settled.
  - unfold disconnect.
    destruct (reconnectTimeout c) as [h|] eqn:Er; simpl in Hp.
    + rewrite (clearTimeout_only h _ Hp).
      destruct (ws c); repeat split; simpl; try lia; discriminate.
    + destruct (ws c); repeat split; simpl; try lia; try exact Hp;
        discriminate.
  - exact Hc.
  - exact Hc.
  - unfold sendStatusRequest. repeat case_match; exact Hc.
  - destruct (sockets c !! id) as [[]|] eqn:Es; try exact Hc.
    unfold onopen, with_socket; simpl.
    assert (Hw' : forall i, ws c = Some i ->
              <[id:=OPEN]> (sockets c) !! i = Some CONNECTING \/
              <[id:=OPEN]> (sockets c) !! i = Some OPEN).
    { intros i Hi. destruct (decide (i = id)) as [->|Hne].
      - right. apply list_lookup_insert_eq. now apply lookup_lt_Some in Es.
      - rewrite list_lookup_insert_ne by congruence. auto. }
    destruct (reconnectTimeout c) as [h|] eqn:Er; simpl;
      repeat split; simpl; try lia; try exact Hw'.
    + now rewrite clearTimeout_only.
    + exact Hp.
  - assert (Hclose : settled (snd (onclose (with_socket id CLOSED c)))).
    { apply attemptReconnect_settled. repeat split; simpl; try lia; try exact Hp.
      discriminate. }
    destruct (sockets c !! id) as [[]|]; try exact Hc; exact Hclose.
  - destruct (sockets c !! id) as [[]|]; try exact Hc.
    destruct data; exact Hc.
  - exact Hc.
  - destruct (existsb _ (pending c)) eqn:Ex; [|exact Hc].
    apply connect_settled.
    destruct (reconnectTimeout c) as [h'|] eqn:Er; simpl in Hp.
    + assert (h' = h) as ->.
      { destruct (pending c) as [|[h0 d] [|? ?]]; try discriminate.
        injection Hp as ->. simpl in Ex. rewrite orb_false_r in Ex.
        now apply Nat.eqb_eq in Ex. }
      repeat split; simpl; try lia; try exact Hw. now rewrite clearTimeout_only.
    + apply fmap_nil_inv in Hp. rewrite Hp in Ex. discriminate.
Qed.

Lemma run_cons (e : Event) (es : list Event) (c : Client) :
  run (e :: es) c =
  (fst (step e c) ++ fst (run es (snd (step e c))),
   snd (run es (snd (step e c)))).
Proof.
  simpl. destruct (step e c) as [a c1]. simpl.
  now destruct (run es c1) as [b c2].
Qed.

Lemma run_app (es1 es2 : list Event) (c : Client) :
  run (es1 ++ es2) c =
  (fst (run es1 c) ++ fst (run es2 (snd (run es1 c))),
   snd (run es2 (snd (run es1 c)))).
Proof.
  revert c. induction es1 as [|e es1 IH]; intros c.
  - simpl. now destruct (run es2 c).
  - rewrite <- app_comm_cons, !run_cons, IH. simpl. now rewrite app_assoc.
Qed.

Lemma run_settled (es : list Event) (c : Client) :
  settled c -> settled (snd (run es c)).
Proof.
  revert c. induction es as [|e es IH]; intros c Hc; [exact Hc|].
  rewrite run_cons. simpl. apply IH. now apply step_settled.
Qed.

Lemma attemptReconnect_url_ok (c : Client) :
  url_ok (snd (attemptReconnect c)) = url_ok c.
Proof.
  unfold attemptReconnect. destruct (_ >=? _)%Z; [reflexivity|].
  now destruct (reconnectTimeout c).
Qed.

Lemma connect_url_ok (c : Client) : url_ok (snd (connect c)) = url_ok c.
Proof.
  unfold connect. destruct (is_open c); [reflexivity|].
  destruct (url_ok c) eqn:E; [reflexivity|].
  now rewrite attemptReconnect_url_ok.
Qed.

Lemma step_url_ok (e : Event) (c : Client) : url_ok (snd (step e c)) = url_ok c.
Proof.
  destruct e as [| |cb|cb| |id|id|id data|id|h]; simpl; try reflexivity.
  - apply connect_url_ok.
  - unfold disconnect. now destruct (reconnectTimeout c), (ws c).
  - unfold sendStatusRequest. now repeat case_match.
  - destruct (sockets c !! id) as [[]|]; try reflexivity.
    unfold onopen. simpl. now destruct (reconnectTimeout c).
  - destruct (sockets c !! id) as [[]|]; try reflexivity;
      unfold onclose; now rewrite attemptReconnect_url_ok.
  - destruct (sockets c !! id) as [[]|]; try reflexivity. now destruct data.
  - destruct (existsb _ (pending c)); [|reflexivity].
    unfold reconnect_callback. now rewrite connect_url_ok.
Qed.

Lemma run_url_ok (es : list Event) (url : bool) :
  url_ok (snd (run es (initial url))) = url.
Proof.
  change url with (url_ok (initial url)) at 2.
  generalize (initial url). induction es as [|e es IH]; intros c.
  - reflexivity.
  - rewrite run_cons. simpl. now rewrite IH, step_url_ok.
Qed.

Lemma initial_settled (url : bool) : settled (initial url).
Proof. repeat split; simpl; try lia. discriminate. Qed.

(** What a step adds to the timers set: nothing, or one timer with the
    delay of the attempt it counts. An [open] sets no timer. *)
Lemma step_delays (e : Event) (c : Client) :
  (delays (fst (step e c)) = [] /\
   (is_opened e = false ->
    reconnectAttempts (snd (step e c)) = reconnectAttempts c)) \/
  (delays (fst (step e c)) = [backoff (reconnectAttempts c)] /\
   is_opened e = false /\
   (reconnectAttempts c < 5)%Z /\
   reconnectAttempts (snd (step e c)) = (reconnectAttempts c + 1)%Z).
Proof.
  assert (Hat : forall c0 : Client, reconnectAttempts c0 = reconnectAttempts c ->
    (delays (fst (attemptReconnect c0)) = [] /\
     reconnectAttempts (snd (attemptReconnect c0)) = reconnectAttempts c) \/
    (delays (fst (attemptReconnect c0)) = [backoff (reconnectAttempts c)] /\
     (reconnectAttempts c < 5)%Z /\
     reconnectAttempts (snd (attemptReconnect c0)) = (reconnectAttempts c + 1)%Z)).
  { intros c0 E.
    destruct (attemptReconnect_cases c0) as [(-> & _)|(Hlt & _ & ->)]; simpl.
    - left. auto.
    - right. rewrite <- E. auto. }
  assert (Hco : forall c0 : Client, reconnectAttempts c0 = reconnectAttempts c ->
    (delays (fst (connect c0)) = [] /\
     reconnectAttempts (snd (connect c0)) = reconnectAttempts c) \/
    (delays (fst (connect c0)) = [backoff (reconnectAttempts c)] /\
     (reconnectAttempts c < 5)%Z /\
     reconnectAttempts (snd (connect c0)) = (reconnectAttempts c + 1)%Z)).
  { intros c0 E. unfold connect.
    destruct (is_open c0); [left; auto|].
    destruct (url_ok c0); [left; auto|]. now apply Hat. }
  destruct e as [| |cb|cb| |id|id|id data|id|h]; simpl.
  - destruct (Hco c eq_refl) as [(? & ?)|(? & ? & ?)]; [left|right]; auto.
  - left. unfold disconnect.
    destruct (reconnectTimeout c), (ws c); simpl; auto.
  - left. auto.
  - left. auto.
  - left. unfold sendStatusRequest. repeat case_match; simpl; auto.
  - left. split; [|discriminate].
    destruct (sockets c !! id) as [[]|]; try reflexivity.
    unfold onopen. simpl. now destruct (reconnectTimeout c).
  - destruct (sockets c !! id) as [[]|]; try (left; simpl; auto; fail);
      (destruct (Hat (with_socket id CLOSED
                        {| ws := None; reconnectTimeout := reconnectTimeout c;
                           listeners := listeners c;
                           reconnectAttempts := reconnectAttempts c;
                           sockets := sockets c; pending := pending c;
                           next_timer := next_timer c; url_ok := url_ok c |})
                     eq_refl) as [(? & ?)|(? & ? & ?)]; [left|right]; auto).
  - left. destruct (sockets c !! id) as [[]|]; simpl; auto.
    destruct data; simpl; auto. split; [|auto].
    unfold delays. induction (listeners c); simpl; auto.
  - left. auto.
  - destruct (existsb _ (pending c)); [|left; auto].
    unfold reconnect_callback.
    match goal with |- context [connect ?c0] =>
      destruct (Hco c0 eq_refl) as [(? & ?)|(? & ? & ?)] end;
      [left|right]; auto.
Qed.

(** X22. The reconnect logic is bounded: in every state the object
    reaches, whatever the calls, socket events and timers, the attempt
    counter is between 0 and 5 and at most one reconnect timer is pending,
    the one whose handle [reconnectTimeout] holds; and every reconnect
    timer ever set has a delay between one and ten seconds. *)
Theorem reconnect_is_bounded (url : bool) (es : list Event) :
  let acts := fst (run es (initial url)) in
  let c := snd (run es (initial url)) in
  (0 <= reconnectAttempts c <= 5)%Z /\
  fst <$> pending c = option_list (reconnectTimeout c) /\
  (length (pending c) <= 1)%nat /\
  Forall (fun d => 1000 <= d <= 10000)%Z (delays acts).
Proof.
  intros acts c.
  assert (G : forall es c0, settled c0 ->
            Forall (fun d => 1000 <= d <= 10000)%Z (delays (fst (run es c0)))).
  { clear. induction es as [|e es IH]; intros c0 Hc; [constructor|].
    rewrite run_cons. simpl. unfold delays. rewrite omap_app.
    apply Forall_app. split; [|apply IH; now apply step_settled].
    fold (delays (fst (step e c0))).
    destruct (step_delays e c0) as [(-> & _)|(-> & _)]; [constructor|].
    constructor; [|constructor]. apply backoff_range. now destruct Hc as ((? & _) & _). }
  pose proof (run_settled es (initial url) (initial_settled url)) as (Ha & Hp & _).
  fold c in Ha, Hp. repeat split; try lia; try exact Hp.
  - apply (f_equal length) in Hp. rewrite length_fmap in Hp. rewrite Hp.
    destruct (reconnectTimeout c); simpl; lia.
  - apply G, initial_settled.
Qed.

(** X23. The backoff doubles, is capped, and gives up. However the object
    got where it is, as long as no socket opens the timers it sets wait
    1000 * 2^k ms capped at 10000 for k counting on from the attempt
    counter, one attempt per timer, and no timer is set once the counter
    is at five: from a fresh object at most the five delays 1000, 2000,
    4000, 8000 and 10000 ms, in that order. *)
Theorem backoff_schedule (url : bool) (es1 es2 : list Event) :
  let c1 := snd (run es1 (initial url)) in
  let acts := fst (run es2 c1) in
  let c2 := snd (run es2 c1) in
  forallb (fun e => negb (is_opened e)) es2 = true ->
  delays acts =
    backoff <$> seqZ (reconnectAttempts c1) (Z.of_nat (length (delays acts))) /\
  reconnectAttempts c2 =
    (reconnectAttempts c1 + Z.of_nat (length (delays acts)))%Z /\
  (reconnectAttempts c2 <= 5)%Z.
Proof.
  intros c1 acts c2 Hes.
  assert (G : forall es c, forallb (fun e => negb (is_opened e)) es = true ->
    delays (fst (run es c)) =
      backoff <$> seqZ (reconnectAttempts c)
                       (Z.of_nat (length (delays (fst (run es c))))) /\
    reconnectAttempts (snd (run es c)) =
      (reconnectAttempts c + Z.of_nat (length (delays (fst (run es c)))))%Z).
  { clear. induction es as [|e es IH]; intros c Hes.
    - simpl. split; [reflexivity | lia].
    - simpl in Hes. apply andb_true_iff in Hes as (He & Hes).
      apply negb_true_iff in He.
      rewrite run_cons. simpl. unfold delays. rewrite omap_app.
      fold (delays (fst (step e c))).
      fold (delays (fst (run es (snd (step e c))))).
      destruct (IH (snd (step e c)) Hes) as (IH1 & IH2).
      destruct (step_delays e c) as [(-> & Hk)|(-> & _ & Hlt & Hk)].
      + rewrite Hk in * by exact He. simpl. auto.
      + rewrite Hk in *. rewrite length_app. simpl length.
        replace (Z.of_nat (1 + length (delays (fst (run es (snd (step e c)))))))
          with (Z.succ (Z.of_nat (length (delays (fst (run es (snd (step e c))))))))
          by lia.
        rewrite seqZ_cons by lia. rewrite fmap_cons. simpl.
        rewrite Z.pred_succ.
        replace (Z.succ (reconnectAttempts c)) with (reconnectAttempts c + 1)%Z
          by lia.
        split; [now f_equal | lia]. }
  destruct (G es2 c1 Hes) as (G1 & G2). fold acts in G1, G2. fold c2 in G2.
  repeat split; [exact G1 | exact G2 |].
  pose proof (run_settled es2 c1
                (run_settled es1 _ (initial_settled url))) as ((_ & H5) & _).
  exact H5.
Qed.

(** A controller that is not there: every socket closes before it opens. *)
Lemma backoff_schedule_witness :
  let es := [Connect; Closed 0; Fired 1; Closed 1; Fired 2; Closed 2;
             Fired 3; Closed 3; Fired 4; Closed 4; Fired 5; Closed 5;
             Connect; Closed 6] in
  delays (fst (run es (initial true))) = [1000; 2000; 4000; 8000; 10000]%Z /\
  reconnectAttempts (snd (run es (initial true))) = 5%Z.
Proof.
  intros es.
  destruct (backoff_schedule true [] es eq_refl) as (H1 & H2 & _).
  split; [exact H1 | exact H2].
Defined.

(** X24. [disconnect] does not end the reconnecting. When the object holds
    a socket and has attempts left, [disconnect()] followed by the close
    event of the socket it closed sets a reconnect timer again, with no
    listener left; when that timer fires a new socket is opened. *)
Theorem disconnect_then_close_reconnects (es : list Event) (id : nat) :
  let c := snd (run es (initial true)) in
  ws c = Some id ->
  (reconnectAttempts c < 5)%Z ->
  let acts := fst (run [Disconnect; Closed id] c) in
  let c' := snd (run [Disconnect; Closed id] c) in
  delays acts = [backoff (reconnectAttempts c)] /\
  reconnectTimeout c' = Some (next_timer c) /\
  listeners c' = [] /\
  fst (step (Fired (next_timer c)) c') = [NewSocket (length (sockets c))].
Proof.
  intros c Hws Hlt acts c'.
  pose proof (run_settled es _ (initial_settled true)) as (Ha & Hp & Hw).
  fold c in Ha, Hp, Hw.
  assert (Hurl : url_ok c = true) by apply run_url_ok.
  assert (Hs : exists st, sockets c !! id = Some st /\ closing st = CLOSING).
  { destruct (Hw id Hws) as [E|E]; rewrite E; eauto. }
  destruct Hs as (st & Hst & Hcl).
  assert (Hid : (id < length (sockets c))%nat) by now apply lookup_lt_Some in Hst.
  assert (Hlook : alter closing id (sockets c) !! id = Some CLOSING).
  { rewrite list_lookup_alter_eq, Hst. simpl. now rewrite Hcl. }
  assert (Hdis : exists a,
            step Disconnect c =
              (a ++ [SocketClose id],
               {| ws := None; reconnectTimeout := None; listeners := [];
                  reconnectAttempts := reconnectAttempts c;
                  sockets := alter closing id (sockets c); pending := [];
                  next_timer := next_timer c; url_ok := true |}) /\
            delays a = []).
  { simpl. unfold disconnect. rewrite Hws, Hurl.
    destruct (reconnectTimeout c) as [h|] eqn:Er; simpl in Hp.
    - rewrite (clearTimeout_only h _ Hp). now eexists.
    - apply fmap_nil_inv in Hp. rewrite Hp. now exists []. }
  destruct Hdis as (a & Hdis & Ha0).
  subst acts c'. rewrite run_cons, Hdis. cbn [fst snd].
  rewrite run_cons. cbn [run fst snd]. rewrite app_nil_r.
  cbn [step sockets]. rewrite Hlook.
  unfold onclose, attemptReconnect, maxReconnectAttempts. cbn.
  destruct (Z.geb_spec (reconnectAttempts c) 5); [lia|]. cbn.
  split.
  { unfold delays in *. rewrite !omap_app, Ha0. reflexivity. }
  split; [reflexivity|]. split; [reflexivity|].
  rewrite Nat.eqb_refl. cbn.
  unfold reconnect_callback, connect, is_open. cbn.
  now rewrite length_insert, length_alter.
Qed.

(** Subscribed and connected, then disconnected: the close event of the
    closed socket sets the first reconnect timer. *)
Lemma disconnect_then_close_reconnects_witness :
  let c := snd (run [OnMessage 0; Connect; Opened 0] (initial true)) in
  delays (fst (run [Disconnect; Closed 0] c)) = [1000%Z] /\
  listeners (snd (run [Disconnect; Closed 0] c)) = [].
Proof.
  intros c.
  destruct (disconnect_then_close_reconnects [OnMessage 0; Connect; Opened 0] 0)
    as (H1 & _ & H3 & _).
  - reflexivity.
  - reflexivity.
  - split; [exact H1 | exact H3].
Defined.

End VMCWebSocketFacts.

(** ** The backend's reconnecting socket (vmc.ts) *)

Module VmcLinkFacts.
Import VmcLink.

Lemma link_run_cons (e : Event) (es : list Event) (s : State) :
  run (e :: es) s =
  (fst (step e s) ++ fst (run es (snd (step e s))),
   snd (run es (snd (step e s)))).
Proof.
  simpl. destruct (step e s) as [a s1]. simpl.
  now destruct (run es s1) as [b s2].
Qed.

Lemma connectToVMC_cases (s : State) :
  connectToVMC s = (vmcClient s, [], s) \/
  connectToVMC s = (None, [], s) \/
  connectToVMC s =
    (Some (length (sockets s)), [NewSocket (length (sockets s))],
     {| vmcClient := Some (length (sockets s));
        reconnectTimeout := reconnectTimeout s;
        sockets := sockets s ++ [CONNECTING]; pending := pending s;
        next_timer := next_timer s; url_ok := url_ok s |}).
Proof.
  unfold connectToVMC. destruct (is_open s); [auto|].
  destruct (url_ok s); auto.
Qed.

Lemma link_step_settled (e : Event) (s : State) :
  settled s -> settled (snd (step e s)).
Proof.
  intros Hs.
  destruct e as [|m|id|id|id|id|h]; simpl.
  - destruct (connectToVMC_cases s) as [->|[->| ->]]; exact Hs.
  - unfold sendToVMC. destruct (is_open s).
    + destruct (vmcClient s); exact Hs.
    + destruct (connectToVMC_cases s) as [->|[->| ->]]; exact Hs.
  - destruct (sockets s !! id) as [[]|]; try exact Hs.
    unfold on_open, with_socket. simpl.
    destruct (reconnectTimeout s) as [h|] eqn:Er; simpl.
    + left. destruct Hs as [->|(h' & -> & E)]; [reflexivity|].
      rewrite Er in E. injection E as <-. simpl. now rewrite Nat.eqb_refl.
    + destruct Hs as [Hs|(h' & _ & E)]; [now left|]. now rewrite Er in E.
  - assert (settled (snd (on_close (with_socket id CLOSED s)))).
    { unfold on_close, with_socket. simpl.
      destruct (reconnectTimeout s) as [h|] eqn:Er; simpl.
      - destruct Hs as [Hs|(h' & Hp & E)]; [now left|].
        right. exists h'. simpl. now rewrite <- Er.
      - destruct Hs as [->|(h' & _ & E)]; [|now rewrite Er in E].
        right. now eexists. }
    destruct (sockets s !! id) as [[]|]; try exact Hs; assumption.
  - exact Hs.
  - exact Hs.
  - destruct (existsb _ (pending s)) eqn:Ex; [|exact Hs].
    assert (Hw : settled (without_timer h s)).
    { left. unfold without_timer. simpl.
      destruct Hs as [E|(h' & E & _)]; rewrite E in *; [reflexivity|].
      simpl in *. rewrite orb_false_r in Ex.
      rewrite Nat.eqb_sym. now rewrite Ex. }
    unfold reconnect_callback.
    destruct (connectToVMC_cases (without_timer h s)) as [->|[->| ->]];
      exact Hw.
Qed.

Lemma link_run_settled (es : list Event) (s : State) :
  settled s -> settled (snd (run es s)).
Proof.
  revert s. induction es as [|e es IH]; intros s Hs; [exact Hs|].
  rewrite link_run_cons. simpl. apply IH. now apply link_step_settled.
Qed.

(** What one event does to [reconnectTimeout], and the timers it sets. *)
Lemma link_step_timeouts (e : Event) (s : State) :
  is_opened e = false ->
  (timeouts (fst (step e s)) = [] /\
   reconnectTimeout (snd (step e s)) = reconnectTimeout s) \/
  (timeouts (fst (step e s)) = [3000%Z] /\ reconnectTimeout s = None /\
   reconnectTimeout (snd (step e s)) <> None).
Proof.
  intros He.
  destruct e as [|m|id|id|id|id|h]; simpl; try discriminate.
  - left. destruct (connectToVMC_cases s) as [->|[->| ->]]; auto.
  - left. unfold sendToVMC. destruct (is_open s).
    + destruct (vmcClient s); auto.
    + destruct (connectToVMC_cases s) as [->|[->| ->]]; auto.
  - assert ((timeouts (fst (on_close (with_socket id CLOSED s))) = [] /\
             reconnectTimeout (snd (on_close (with_socket id CLOSED s)))
               = reconnectTimeout s) \/
            (timeouts (fst (on_close (with_socket id CLOSED s))) = [3000%Z] /\
             reconnectTimeout s = None /\
             reconnectTimeout (snd (on_close (with_socket id CLOSED s)))
               <> None)).
    { unfold on_close, with_socket. simpl.
      destruct (reconnectTimeout s) eqn:Er; simpl; [left; auto|].
      right. repeat split; congruence. }
    destruct (sockets s !! id) as [[]|]; try (left; split; reflexivity);
      assumption.
  - left. auto.
  - left. auto.
  - left. destruct (existsb _ (pending s)); [|auto].
    unfold reconnect_callback.
    destruct (connectToVMC_cases (without_timer h s)) as [->|[->| ->]]; auto.
Qed.

(** The sockets an event of a socket or a timer makes are paid for by a
    pending timer. *)
Lemma link_step_sockets (e : Event) (s : State) :
  is_call e = false -> is_opened e = false -> settled s ->
  let credit (s : State) :=
    (length (pending s) +
     match reconnectTimeout s with None => 1 | Some _ => 0 end)%nat in
  (length (new_sockets (fst (step e s))) + credit (snd (step e s))
   <= credit s)%nat.
Proof.
  intros Hc Ho Hs credit. unfold credit.
  destruct e as [|m|id|id|id|id|h]; simpl; try discriminate; try lia.
  - assert (length (new_sockets (fst (on_close (with_socket id CLOSED s)))) +
            (length (pending (snd (on_close (with_socket id CLOSED s)))) +
             match reconnectTimeout (snd (on_close (with_socket id CLOSED s)))
             with None => 1 | Some _ => 0 end)
            <= length (pending s) +
               match reconnectTimeout s with None => 1 | Some _ => 0 end)%nat.
    { unfold on_close, with_socket. simpl.
      destruct (reconnectTimeout s) eqn:Er; simpl; [lia|].
      rewrite length_app. simpl. lia. }
    destruct (sockets s !! id) as [[]|]; simpl; try lia; assumption.
  - destruct (existsb _ (pending s)) eqn:Ex; simpl; [|lia].
    destruct Hs as [E|(h' & E & Er)]; rewrite E in Ex; [discriminate|].
    simpl in Ex. rewrite orb_false_r in Ex. apply Nat.eqb_eq in Ex as ->.
    unfold reconnect_callback.
    destruct (connectToVMC_cases (without_timer h' s)) as [->|[->| ->]];
      simpl; rewrite E, Er; simpl; rewrite Nat.eqb_refl; simpl; lia.
Qed.

(** X25. The backend reconnects once. However the module got where it is,
    as long as no socket opens it sets at most one reconnect timer, always
    of three seconds, and none if [reconnectTimeout] already holds one,
    fired or not: the timer's callback does not reset the variable, so
    after one reconnect that fails no further one is scheduled. Left to
    socket events and timers alone, that is without a call of
    [connectToVMC] or [sendToVMC], it therefore makes at most one more
    socket; and at no time is more than one timer pending. *)
Theorem backend_reconnects_once (url : bool) (es1 es2 : list Event) :
  let s1 := snd (run es1 (initial url)) in
  let acts := fst (run es2 s1) in
  let s2 := snd (run es2 s1) in
  forallb (fun e => negb (is_opened e)) es2 = true ->
  (timeouts acts = [] \/ timeouts acts = [3000%Z]) /\
  (reconnectTimeout s1 <> None -> timeouts acts = []) /\
  (forallb (fun e => negb (is_call e)) es2 = true ->
   (length (new_sockets acts) <= 1)%nat) /\
  (length (pending s2) <= 1)%nat.
Proof.
  intros s1 acts s2 Hes.
  assert (Hs1 : settled s1) by (apply link_run_settled; now left).
  assert (G1 : forall es s, forallb (fun e => negb (is_opened e)) es = true ->
    (reconnectTimeout s <> None -> timeouts (fst (run es s)) = []) /\
    (timeouts (fst (run es s)) = [] \/ timeouts (fst (run es s)) = [3000%Z])).
  { clear. induction es as [|e es IH]; intros s Hes.
    - simpl. auto.
    - simpl in Hes. apply andb_true_iff in Hes as (He & Hes).
      apply negb_true_iff in He. rewrite link_run_cons. simpl.
      unfold timeouts. rewrite omap_app.
      fold (timeouts (fst (step e s))).
      fold (timeouts (fst (run es (snd (step e s))))).
      destruct (IH (snd (step e s)) Hes) as (IH1 & IH2).
      destruct (link_step_timeouts e s He) as [(-> & Hr)|(-> & Hn & Hr)]; simpl.
      + rewrite Hr in IH1. auto.
      + split; [congruence|]. right. now rewrite IH1. }
  assert (G2 : forall es s, settled s ->
    forallb (fun e => negb (is_opened e)) es = true ->
    forallb (fun e => negb (is_call e)) es = true ->
    (length (new_sockets (fst (run es s))) <=
     length (pending s) +
     match reconnectTimeout s with None => 1 | Some _ => 0 end)%nat).
  { clear. induction es as [|e es IH]; intros s Hs Ho Hc.
    - simpl. lia.
    - simpl in Ho, Hc. apply andb_true_iff in Ho as (Ho & Hos).
      apply andb_true_iff in Hc as (Hc & Hcs).
      apply negb_true_iff in Ho. apply negb_true_iff in Hc.
      rewrite link_run_cons. simpl. unfold new_sockets. rewrite omap_app.
      rewrite length_app.
      fold (new_sockets (fst (step e s))).
      fold (new_sockets (fst (run es (snd (step e s))))).
      pose proof (IH (snd (step e s)) (link_step_settled e s Hs) Hos Hcs).
      pose proof (link_step_sockets e s Hc Ho Hs). simpl in *. lia. }
  destruct (G1 es2 s1 Hes) as (G1a & G1b).
  split; [exact G1b|]. split; [exact G1a|]. split.
  - intros Hc. pose proof (G2 es2 s1 Hs1 Hes Hc) as H.
    destruct Hs1 as [E|(h & E & Er)]; rewrite E in H; simpl in H.
    + destruct (reconnectTimeout s1); simpl in H; fold acts in H; lia.
    + rewrite Er in H. exact H.
  - assert (Hs2 : settled s2) by now apply link_run_settled.
    destruct Hs2 as [->|(h & -> & _)]; simpl; lia.
Qed.

(** The controller is down when the backend starts: the first socket
    closes, the one reconnect fails too, and the second close sets no
    timer. *)
Lemma backend_reconnects_once_witness :
  let es := [Closed 0; Fired 0; Closed 1; Fired 0; Closed 1] in
  let s1 := snd (run [ConnectToVMC] (initial true)) in
  (timeouts (fst (run es s1)) = [] \/ timeouts (fst (run es s1)) = [3000%Z]) /\
  (length (new_sockets (fst (run es s1))) <= 1)%nat /\
  (length (pending (snd (run es s1))) <= 1)%nat.
Proof.
  intros es s1.
  destruct (backend_reconnects_once true [ConnectToVMC] es eq_refl)
    as (H1 & _ & H3 & H4).
  split; [exact H1|]. split; [apply H3; reflexivity | exact H4].
Defined.

End VmcLinkFacts.

(** The link the cart controller's handlers see is the one [vmc.ts]
    keeps: both [sendToVMC] report the same, and leave the same link. *)
Lemma sendToVMC_link (message : jsval) (items : list Q)
    (s : VmcLink.State) (w : World) :
  VmcLink.url_ok s = true ->
  vmcClient w = VmcLink.link_of s ->
  fst (fst (VmcLink.sendToVMC message s)) = fst (sendToVMC items w) /\
  vmcClient (snd (sendToVMC items w)) =
    VmcLink.link_of (snd (VmcLink.sendToVMC message s)).
Proof.
  intros Hurl Hl. unfold VmcLink.link_of in Hl.
  unfold sendToVMC, connectToVMC, VmcLink.sendToVMC, VmcLink.connectToVMC.
  run_handler. rewrite Hl, Hurl.
  destruct (VmcLink.vmcClient s) as [id|] eqn:Ev.
  - destruct (VmcLink.is_open s) eqn:Eo; simpl.
    + unfold VmcLink.link_of. now rewrite Ev, Eo.
    + split; [reflexivity|]. unfold VmcLink.link_of, VmcLink.is_open. simpl.
      now rewrite lookup_app_r, Nat.sub_diag by lia.
  - assert (Eo : VmcLink.is_open s = false)
      by (unfold VmcLink.is_open; now rewrite Ev).
    rewrite Eo. simpl. split; [reflexivity|].
    unfold VmcLink.link_of, VmcLink.is_open. simpl.
    now rewrite lookup_app_r, Nat.sub_diag by lia.
Qed.
